(** * CleanList: the field-mapping and validation pipeline of [cleanlist.py]

    A shallow embedding of the core functions of [cleanlist.py]
    ([process_data], [verify_emails], [render_column_mapping], the template
    load of [render_sidebar], the start action and the export of [main]) and
    the properties of the specification that they decide.

    The program is written against pandas, requests and Streamlit.  The parts
    of those libraries that the program exercises are modelled here:
    - a [DataFrame] is a row index together with an ordered list of named
      columns; [getitem], [setitem_scalar], [setitem_series], [setitem_list]
      and [boolean_mask] follow [df[key]], [df[key] = value] and [df[mask]];
    - Python exceptions are values of [exn], carried by the [result] monad;
    - an object that is mutated and shared lives in a [heap];
    - what the network and the user answer is an argument of the function
      that asks. *)

From stdpp Require Import base option list strings gmap sorting.
From Stdlib Require Import ZArith Ascii.
From Stdlib.Strings Require Import Byte.

Set Warnings "-register-all,-clear-no-such-hyp".

(** ** Python values *)

(** The values that occur in table cells and in decoded JSON.  A float is
    carried by its [repr]: the program moves floats around and prints them but
    never computes with them.  [NaN] is the float pandas uses as missing
    value. *)
Inductive pyval :=
| PNone
| PBool (b : bool)
| PInt (z : Z)
| PFloat (repr : string)
| PStr (s : string)
| PList (l : list pyval)
| PDict (d : list (string * pyval)).

Definition NaN : pyval := PFloat "nan".

(** [v == s] for a Python string literal [s]: only a [str] with the same
    characters is equal to it. *)
Definition eq_str (v : pyval) (s : string) : bool :=
  match v with
  | PStr s' => bool_decide (s' = s)
  | _ => false
  end.

(** pandas' [isna] on a cell. *)
Definition isna (v : pyval) : bool :=
  match v with
  | PNone => true
  | PFloat r => bool_decide (r = "nan")
  | _ => false
  end.

(** ** Exceptions *)

(** The exceptions the modelled code can raise; all of them are subclasses of
    Python's [Exception], so [except Exception] catches every [exn]. *)
Inductive exn :=
| KeyError (key : string)
| ValueError (msg : string)
| TypeError (msg : string)
| AttributeError (msg : string)
| JSONDecodeError (msg : string)
| RequestException (msg : string).

(** [str(e)] *)
Definition str_exn (e : exn) : string :=
  match e with
  | KeyError key => "'" +:+ key +:+ "'"
  | ValueError msg | TypeError msg | AttributeError msg
  | JSONDecodeError msg | RequestException msg => msg
  end.

Inductive result (A : Type) :=
| Ok (a : A)
| Raise (e : exn).
Arguments Ok {A} a.
Arguments Raise {A} e.

(** Sequencing: an exception ends the computation.  With these instances
    [x ← m; k] runs [m] and, when it returns, [k]. *)
Global Instance result_ret : MRet result := λ A a, Ok a.
Global Instance result_bind : MBind result := λ A B k m,
  match m with
  | Ok a => k a
  | Raise e => Raise e
  end.

(** [try: body  except Exception: handler] *)
Definition try_except {A} (body : result A) (handler : A) : A :=
  match body with
  | Ok a => a
  | Raise _ => handler
  end.

(** A [for] loop whose body may raise: the loop stops at the first
    exception. *)
Fixpoint for_each {A S} (body : S → A → result S) (l : list A) (s : S) : result S :=
  match l with
  | [] => Ok s
  | x :: l' => s' ← body s x; for_each body l' s'
  end.

(** ** Dictionaries with string keys *)

(** [mappings] and the templates are Python dicts from target field to
    [None] or a source column name. *)
Abbreviation Mappings := (gmap string (option string)).

(** [d.get(key)]: [None] both when the key is absent and when it holds
    [None]. *)
Definition dict_get (d : Mappings) (key : string) : option string :=
  match d !! key with
  | Some v => v
  | None => None
  end.

(** Truth value of [None] or a [str]: [None] and the empty string are
    false. *)
Definition truthy (v : option string) : bool :=
  match v with
  | Some s => negb (bool_decide (s = ""))
  | None => false
  end.

(** ** pandas tables *)

Module Pandas.

Record Series := mkSeries {
  s_index : list Z;
  s_values : list pyval
}.

(** [df_index] holds the row labels, [df_data] the columns in order, each
    with its label and its cells. *)
Record DataFrame := mkFrame {
  df_index : list Z;
  df_data : list (string * list pyval)
}.

(** [pd.DataFrame()] *)
Definition empty_frame : DataFrame := mkFrame [] [].

(** [df.columns] *)
Definition columns (df : DataFrame) : list string := (df_data df).*1.

(** [len(df)] *)
Definition nrows (df : DataFrame) : nat := length (df_index df).

(** Every column of a frame has one cell per row label. *)
Definition wf_frame (df : DataFrame) : Prop :=
  Forall (λ c, length c.2 = length (df_index df)) (df_data df).

Fixpoint lookup_column (key : string) (data : list (string * list pyval))
  : option (list pyval) :=
  match data with
  | [] => None
  | (k, vs) :: data' =>
      if decide (k = key) then Some vs else lookup_column key data'
  end.

(** [df[key]] for a column label: the column as a Series on the frame's
    index, [KeyError] when there is no such column. *)
Definition getitem (df : DataFrame) (key : string) : result Series :=
  match lookup_column key (df_data df) with
  | Some vs => Ok (mkSeries (df_index df) vs)
  | None => Raise (KeyError key)
  end.

(** Storing a column: an existing label keeps its position and gets the
    new cells, a new label is appended. *)
Fixpoint set_column (key : string) (vs : list pyval)
    (data : list (string * list pyval)) : list (string * list pyval) :=
  match data with
  | [] => [(key, vs)]
  | (k, old) :: data' =>
      if decide (k = key) then (k, vs) :: data'
      else (k, old) :: set_column key vs data'
  end.

(** [df[key] = v] for a scalar [v]: broadcast along the index. *)
Definition setitem_scalar (df : DataFrame) (key : string) (v : pyval)
  : DataFrame :=
  mkFrame (df_index df)
          (set_column key (replicate (length (df_index df)) v) (df_data df)).

(** [_ensure_valid_index]: a frame without rows that is given a non-empty
    Series takes the index of the Series; the columns it already has are
    reindexed, every cell becoming the fill value [NaN]. *)
Definition ensure_valid_index (df : DataFrame) (s : Series) : DataFrame :=
  match df_index df, s_values s with
  | [], _ :: _ =>
      mkFrame (s_index s)
              (map (λ c, (c.1, replicate (length (s_index s)) NaN)) (df_data df))
  | _, _ => df
  end.

Fixpoint lookup_label (l : Z) (idx : list Z) (vs : list pyval) : pyval :=
  match idx, vs with
  | i :: idx', v :: vs' => if decide (i = l) then v else lookup_label l idx' vs'
  | _, _ => NaN
  end.

(** [_reindex_for_setitem]: the cells of the Series as they are when its
    index equals the frame's; otherwise aligned by label, which pandas
    refuses when the Series has a duplicated label. *)
Definition reindex_for_setitem (s : Series) (df : DataFrame)
  : result (list pyval) :=
  if decide (s_index s = df_index df) then Ok (s_values s)
  else if decide (NoDup (s_index s)) then
    Ok (map (λ l, lookup_label l (s_index s) (s_values s)) (df_index df))
  else Raise (ValueError "cannot reindex on an axis with duplicate labels").

(** [df[key] = s] for a Series [s]. *)
Definition setitem_series (df : DataFrame) (key : string) (s : Series)
  : result DataFrame :=
  let df := ensure_valid_index df s in
  vs ← reindex_for_setitem s df;
  Ok (mkFrame (df_index df) (set_column key vs (df_data df))).

(** [pd.RangeIndex(n)] *)
Definition range_index (n : nat) : list Z := map Z.of_nat (seq 0 n).

(** [df[key] = l] for a Python list [l]: a frame without rows takes the
    default index of a non-empty list; after that the length of the list has
    to be the number of rows. *)
Definition setitem_list (df : DataFrame) (key : string) (l : list pyval)
  : result DataFrame :=
  let df := ensure_valid_index df (mkSeries (range_index (length l)) l) in
  if decide (length l = length (df_index df)) then
    Ok (mkFrame (df_index df) (set_column key l (df_data df)))
  else Raise (ValueError "Length of values does not match length of index").

(** Keeping the entries of [l] whose mask bit is set. *)
Fixpoint select {A} (mask : list bool) (l : list A) : list A :=
  match mask, l with
  | b :: mask', x :: l' => if b then x :: select mask' l' else select mask' l'
  | _, _ => []
  end.

(** [df[mask]] for a boolean Series on the frame's index: a new frame with
    the rows whose bit is set, all columns kept. *)
Definition boolean_mask (df : DataFrame) (mask : list bool) : DataFrame :=
  mkFrame (select mask (df_index df))
          (map (λ c, (c.1, select mask c.2)) (df_data df)).

(** The rows of a frame in order, each with its label and its cells in
    column order. *)
Fixpoint rows_of (idx : list Z) (data : list (string * list pyval))
  : list (Z * list pyval) :=
  match idx with
  | [] => []
  | l :: idx' =>
      (l, map (λ c, hd NaN c.2) data)
        :: rows_of idx' (map (λ c, (c.1, tl c.2)) data)
  end.

Definition rows (df : DataFrame) : list (Z * list pyval) :=
  rows_of (df_index df) (df_data df).

End Pandas.
Import Pandas.

(** ** Core data processing *)

(** [process_data]: one pass of the loop body for [target]. *)
Definition process_step (df : DataFrame) (mappings : Mappings)
    (processed : DataFrame) (target : string) : result DataFrame :=
  let source := dict_get mappings target in
  match source with
  | Some src =>
      if truthy source
      then s ← getitem df src; setitem_series processed target s
      else Ok (setitem_scalar processed target PNone)
  | None => Ok (setitem_scalar processed target PNone)
  end.

Definition process_data (df : DataFrame) (mappings : Mappings)
    (target_columns : list string) : result DataFrame :=
  for_each (process_step df mappings) target_columns empty_frame.

(** The state of the loop of [process_data]: the frame under construction
    has no rows yet or has the rows of the source. *)
Definition loop_index (df processed : DataFrame) : Prop :=
  df_index processed = [] ∨ df_index processed = df_index df.

(** [target] is mapped: [mappings.get(target)] is true. *)
Definition mapped (mappings : Mappings) (target : string) : bool :=
  truthy (dict_get mappings target).

(** The column [target] of a frame holds one missing value per row. *)
Definition null_column (processed : DataFrame) (target : string) : Prop :=
  ∃ cells, lookup_column target (df_data processed) = Some cells
           ∧ length cells = nrows processed
           ∧ Forall (λ v, isna v = true) cells.

(** ** The verification service *)

Module Requests.

(** What the program reads of a response: the status code and the decoded
    body, [None] when the body is not a JSON document. *)
Record Response := mkResponse {
  status_code : Z;
  body : option pyval
}.

(** [res.json()] *)
Definition json (res : Response) : result pyval :=
  match body res with
  | Some j => Ok j
  | None => Raise (JSONDecodeError "Expecting value")
  end.

(** [requests.post(url, params={'key': .., 'email': ..}, timeout=5)] as the
    caller sees it: the [n]-th call either raises (connection error,
    timeout, ...) or returns a response. *)
Definition Network := nat → string → pyval → result Response.

End Requests.
Import Requests.

Fixpoint assoc (key : string) (d : list (string * pyval)) : option pyval :=
  match d with
  | [] => None
  | (k, v) :: d' => if decide (k = key) then Some v else assoc key d'
  end.

(** [obj.get(key, dflt)]: only a dict has the method. *)
Definition py_get (obj : pyval) (key : string) (dflt : pyval) : result pyval :=
  match obj with
  | PDict d => Ok (default dflt (assoc key d))
  | _ => Raise (AttributeError "object has no attribute 'get'")
  end.

(** The body of the loop of [verify_emails]: the status appended for one
    email. *)
Definition check_email (post : string → pyval → result Response)
    (api_key : string) (email : pyval) : pyval :=
  try_except
    (res ← post api_key email;
     j ← json res;
     py_get j "result" (PStr "invalid"))
    (PStr "error").

(** [status_col] after the loop over [emails], the first call being the
    [n]-th of the network. *)
Fixpoint status_loop (net : Network) (api_key : string) (n : nat)
    (emails : list pyval) : list pyval :=
  match emails with
  | [] => []
  | email :: emails' =>
      check_email (net n) api_key email :: status_loop net api_key (S n) emails'
  end.

(** Frames are objects: a variable holds a reference, and [df[key] = ..]
    changes the object every holder of the reference sees. *)
Abbreviation loc := positive.
Abbreviation heap := (gmap loc DataFrame).

Global Instance DataFrame_inhabited : Inhabited DataFrame := populate empty_frame.

(** [verify_emails(df, api_key)]: the heap after the call and the reference
    returned. *)
Definition verify_emails (net : Network) (h : heap) (df : loc)
    (api_key : string) : result (heap * loc) :=
  let frame := h !!! df in
  if decide ("Email" ∉ columns frame) then Ok (h, df)
  else
    emails ← getitem frame "Email";
    let status_col := status_loop net api_key 0 (s_values emails) in
    frame ← setitem_list frame "Email Status" status_col;
    let h := <[df := frame]> h in
    status ← getitem frame "Email Status";
    let mask := map (λ v, eq_str v "valid") (s_values status) in
    let out := fresh (dom h) in
    Ok (<[out := boolean_mask frame mask]> h, out).

(** What [verify_emails] computes on a frame that has the column [Email]:
    the outcome of each row in order, the frame once the outcomes are stored
    in it, and the rows that [df['Email Status'] == 'valid'] selects. *)
Definition outcomes (net : Network) (api_key : string) (frame : DataFrame)
  : list pyval :=
  status_loop net api_key 0
              (default [] (lookup_column "Email" (df_data frame))).

Definition annotated (net : Network) (api_key : string) (frame : DataFrame)
  : DataFrame :=
  mkFrame (df_index frame)
          (set_column "Email Status" (outcomes net api_key frame)
                      (df_data frame)).

Definition valid_mask (net : Network) (api_key : string) (frame : DataFrame)
  : list bool :=
  map (λ v, eq_str v "valid") (outcomes net api_key frame).

(** ** The mapping interface *)

Definition IGNORE : string := "--- Ignore ---".

(** What the user does to the widgets of one script run, by widget key: the
    position picked in a select box ([None]: left as displayed) and whether a
    button is clicked. *)
Record User := mkUser {
  pick : string → option nat;
  click : string → bool
}.

(** [st.selectbox(label, options=.., index=.., key=..)]: one of the options,
    the one at [index] unless the user picks another. *)
Definition selectbox (u : User) (key : string) (options : list string)
    (index : nat) : string :=
  match i ← pick u key; options !! i with
  | Some s => s
  | None => nth index options ""
  end.

(** [st.button(.., key=..)] *)
Definition button (u : User) (key : string) : bool := click u key.

(** [l.index(x)] when [x in l] *)
Fixpoint list_index (x : string) (l : list string) : option nat :=
  match l with
  | [] => None
  | y :: l' => if decide (y = x) then Some 0 else S <$> list_index x l'
  end.

(** [source_options.index(current_source) if current_source in source_options else 0] *)
Definition default_index (current_source : option string)
    (source_options : list string) : nat :=
  match current_source with
  | Some c => default 0 (list_index c source_options)
  | None => 0
  end.

(** [[v for v in mappings.values() if v and v != "--- Ignore ---"]].  The list
    is only ever tested for membership, so the order in which the values are
    enumerated is immaterial. *)
Definition initial_used_sources (mappings : Mappings) : list string :=
  omap (λ v, match v with
             | Some s => if truthy v && negb (bool_decide (s = IGNORE))
                         then Some s else None
             | None => None
             end) (map_to_list mappings).*2.

(** The loop of [render_column_mapping] over the targets, from the state
    [(mappings, used_sources)].  A click on a clear button unsets the target
    and ends the script run ([st.rerun()]). *)
Fixpoint mapping_rows (u : User) (df_columns : list string)
    (targets : list string) (mappings : Mappings) (used_sources : list string)
    : Mappings :=
  match targets with
  | [] => mappings
  | target :: targets' =>
      let current_source := dict_get mappings target in
      let available_cols :=
        filter (λ c, c ∉ used_sources ∨ Some c = current_source) df_columns in
      let source_options := IGNORE :: merge_sort String.le available_cols in
      let selected :=
        selectbox u ("mapping_" +:+ target) source_options
                  (default_index current_source source_options) in
      let '(mappings, used_sources) :=
        if decide (selected ≠ IGNORE) then
          (<[target := Some selected]> mappings,
           if decide (selected ∉ used_sources)
           then used_sources ++ [selected] else used_sources)
        else (<[target := None]> mappings, used_sources) in
      if truthy (dict_get mappings target) && button u ("clear_" +:+ target)
      then <[target := None]> mappings
      else mapping_rows u df_columns targets' mappings used_sources
  end.

(** [render_column_mapping(df, target_columns, mappings)]: the dict
    [mappings] as the script run leaves it. *)
Definition render_column_mapping (u : User) (df : DataFrame)
    (target_columns : list string) (mappings : Mappings) : Mappings :=
  mapping_rows u (columns df) target_columns mappings
               (initial_used_sources mappings).

(** What changes the active mapping during a session: a script run that
    renders the mapping interface, or the Load button of a stored template
    ([st.session_state.mappings = tpl_data]). *)
Inductive action :=
| Render (u : User)
| LoadTemplate (tpl_name : string).



(** [target] is bound to the source column [source]: the dict holds a
    non-empty string for it that is not the ignore sentinel. *)
Definition bound (mappings : Mappings) (target source : string) : Prop :=
  dict_get mappings target = Some source ∧ source ≠ "" ∧ source ≠ IGNORE.

(** No source column is bound to two distinct targets. *)
Definition unique_sources (mappings : Mappings) : Prop :=
  ∀ t1 t2 source, bound mappings t1 source → bound mappings t2 source → t1 = t2.

(** ** The loader *)

Section load_and_validate_data.

(** The two library calls of the loader: the UTF-8 decoder, and
    [pd.read_csv(StringIO(content), sep=None, engine='python')], which
    sniffs the delimiter from the text and parses it. *)
Variable utf_8_decode : list byte → result string.
Variable read_csv : string → result DataFrame.

(** The byte-order mark of UTF-8. *)
Definition BOM : list byte := [Byte.xef; Byte.xbb; Byte.xbf].

(** [raw.decode('utf-8-sig')]: a leading byte-order mark is dropped, the
    rest is decoded as UTF-8. *)
Definition decode_utf_8_sig (raw : list byte) : result string :=
  match raw with
  | Byte.xef :: Byte.xbb :: Byte.xbf :: raw' => utf_8_decode raw'
  | _ => utf_8_decode raw
  end.

(** [load_and_validate_data(uploaded_file)], on the bytes that
    [uploaded_file.getvalue()] gives. *)
Definition load_and_validate_data (raw : list byte) : result DataFrame :=
  match content ← decode_utf_8_sig raw; read_csv content with
  | Ok df => Ok df
  | Raise e => Raise (ValueError ("File Error: " +:+ str_exn e))
  end.

End load_and_validate_data.

(** ** The start action and the export *)

Record SessionState := mkSession {
  ss_mappings : Mappings;
  ss_processed_data : option (DataFrame * string)
}.

(** [name.rsplit('.', 1)[0]]: what precedes the last dot, the whole name when
    it has none. *)
Fixpoint before_last_dot (name : string) : option string :=
  match name with
  | EmptyString => None
  | String c name' =>
      match before_last_dot name' with
      | Some p => Some (String c p)
      | None => if decide (c = "."%char) then Some EmptyString else None
      end
  end.

Definition clean_filename (new_filename : string) : string :=
  default new_filename (before_last_dot new_filename) +:+ "_clean.csv".

(** Calling a [bool]. *)
Definition call_bool {A} (f : bool) : result A :=
  Raise (TypeError "'bool' object is not callable").

(** The "Start Processing" button of [main], inside the [try] of the script:
    the session state after the click and the message given to [st.error],
    if any.  Within [main] the name [verify_emails] is a local variable, the
    value of the check box "Verify Email Addresses" (line 342); the call at
    line 347 therefore applies that [bool]. *)
Definition start_processing (df : DataFrame) (TARGET_COLUMNS : list string)
    (api_key new_filename : string) (verify_emails : bool)
    (st : SessionState) : SessionState * option string :=
  let run :=
    processed_df ← process_data df (ss_mappings st) TARGET_COLUMNS;
    processed_df ←
      (if truthy (Some api_key) && verify_emails
       then call_bool verify_emails
       else Ok processed_df);
    Ok (mkSession (ss_mappings st)
                  (Some (processed_df, clean_filename new_filename))) in
  match run with
  | Ok st' => (st', None)
  | Raise e => (st, Some (str_exn e))
  end.


Module Csv.
Section to_csv.

(** How pandas prints a cell that is not missing. *)
Variable str_cell : pyval → string.









End to_csv.
End Csv.

(** ** Template management *)

(** A [*.json] file of the directory [templates], by what [json.load] makes
    of it: the mapping it holds, or the exception of a file that cannot be
    read as JSON. *)
Inductive template_file :=
| JsonFile (tpl_data : Mappings)
| BadFile (e : exn).

(** The [*.json] files of the directory, by stem.  A directory that does not
    exist yet is created empty by [load_templates]; the file system itself
    does not fail (the directory can be read and written). *)
Abbreviation Directory := (gmap string template_file).

(** What the template functions show to the user: [st.error] with its text,
    and the two [st.toast] of [save_template] and [delete_template], with the
    name they mention. *)
Inductive message :=
| Error (text : string)
| ToastSaved (valid_name : string)
| ToastDeleted (name : string).

(** [load_templates()]: the loop reads the files in the order of the file
    system, here the order of [map_to_list]; the first file that cannot be
    read ends it, and [{}] is returned. *)
Definition load_templates (dir : Directory)
  : gmap string Mappings * list message :=
  let read :=
    for_each (λ (templates : gmap string Mappings) file,
                match file.2 with
                | JsonFile tpl_data => Ok (<[file.1 := tpl_data]> templates)
                | BadFile e => Raise e
                end)
             (map_to_list dir) ∅ in
  match read with
  | Ok templates => (templates, [])
  | Raise e => (∅, [Error ("Template loading error: " +:+ str_exn e)])
  end.

(** A [str] is kept as its UTF-8 bytes; [re] and [str.strip] work on its
    characters.  [chars] cuts a string into them: a byte of the form
    [10xxxxxx] continues the character before it. *)
Definition is_continuation (b : ascii) : bool :=
  match b with
  | Ascii _ _ _ _ _ _ b6 b7 => b7 && negb b6
  end.

Definition continues (s : string) : bool :=
  match s with
  | String b _ => is_continuation b
  | EmptyString => false
  end.

Fixpoint chars (s : string) : list string :=
  match s with
  | EmptyString => []
  | String b s' =>
      match chars s' with
      | c :: cs =>
          if continues s' then String b c :: cs
          else String b EmptyString :: c :: cs
      | [] => [String b EmptyString]
      end
  end.

Section save_template.

(** The classification of characters by the Unicode database: the
    characters [\w] matches, and the white space [str.strip] removes. *)
Variable word_char : string → bool.
Variable space_char : string → bool.

Fixpoint lstrip (cs : list string) : list string :=
  match cs with
  | [] => []
  | c :: cs' => if space_char c then lstrip cs' else cs
  end.

(** [name.strip()], on the characters of [name] *)
Definition strip (cs : list string) : list string :=
  reverse (lstrip (reverse (lstrip cs))).

(** A character that [[^\w-]] does not match. *)
Definition kept_char (c : string) : bool :=
  word_char c || bool_decide (c = "-").

(** [re.sub(r'[^\w-]', '', name.strip())[:50]] *)
Definition sanitize (name : string) : string :=
  String.concat "" (take 50 (filter (λ c, kept_char c = true)
                                    (strip (chars name)))).

(** [save_template(name, mappings)]: the directory after the call and what
    is shown. *)
Definition save_template (name : string) (mappings : Mappings)
    (dir : Directory) : Directory * list message :=
  let run : result (Directory * list message) :=
    if decide (name = "") then
      Raise (ValueError "Template name cannot be empty")
    else
      let valid_name := sanitize name in
      if decide (valid_name = "") then Raise (ValueError "Invalid template name")
      else if decide (is_Some (dir !! valid_name)) then
        Raise (ValueError "Template name already exists")
      else Ok (<[valid_name := JsonFile mappings]> dir, [ToastSaved valid_name]) in
  match run with
  | Ok r => r
  | Raise e => (dir, [Error ("Save failed: " +:+ str_exn e)])
  end.

End save_template.

(** [delete_template(name)] *)
Definition delete_template (name : string) (dir : Directory)
  : Directory * list message :=
  if decide (is_Some (dir !! name)) then (delete name dir, [ToastDeleted name])
  else (dir, []).

(** ** The session and its dict objects *)

(** [st.session_state.mappings] and the values of
    [st.session_state.templates] are references to dict objects: the Load
    button of a template stores the reference of the template in
    [st.session_state.mappings], and [render_column_mapping] writes into the
    object it is given. *)
Record Session := mkSession' {
  objects : gmap loc Mappings;
  session_mappings : loc;
  session_templates : gmap string loc
}.

(** The mapping the session works on. *)
Definition active_mapping (s : Session) : Mappings :=
  objects s !!! session_mappings s.

(** A template as the session lists it. *)
Definition listed_template (s : Session) (tpl_name : string)
  : option Mappings :=
  l ← session_templates s !! tpl_name; objects s !! l.

Definition session_action (df : DataFrame) (target_columns : list string)
    (s : Session) (a : action) : Session :=
  match a with
  | Render u =>
      mkSession'
        (<[session_mappings s :=
             render_column_mapping u df target_columns (active_mapping s)]>
           (objects s))
        (session_mappings s) (session_templates s)
  | LoadTemplate tpl_name =>
      match session_templates s !! tpl_name with
      | Some tpl_data => mkSession' (objects s) tpl_data (session_templates s)
      | None => s
      end
  end.

Definition session_actions (df : DataFrame) (target_columns : list string)
    (s : Session) (l : list action) : Session :=
  foldl (session_action df target_columns) s l.

(** ** Predicates of the properties *)

(** The entry of [target] is unset or names a column of the table. *)
Definition names_column (df : DataFrame) (mappings : Mappings)
    (target : string) : Prop :=
  dict_get mappings target = None
  ∨ ∃ c, dict_get mappings target = Some c ∧ c ∈ columns df ∧ c ≠ IGNORE.


Fixpoint contains_dot (s : string) : bool :=
  match s with
  | EmptyString => false
  | String c s' => bool_decide (c = "."%char) || contains_dot s'
  end.

(** ** Sample data *)

(** A three-row upload with the columns of the scenario of the
    specification. *)
Definition sample_table : DataFrame :=
  mkFrame [0; 1; 2]%Z
    [("E-mail Address", [PStr "ann@example.com"; PStr "bob@example.com";
                         PStr "cy@example.com"]);
     ("Full Name", [PStr "Ann"; PStr "Bob"; PStr "Cy"])].

Definition sample_mapping : Mappings :=
  <["Email" := Some "E-mail Address"]> (<["Name" := Some "Full Name"]> ∅).

(** What [process_data] makes of it for the schema [Phone], [Email]. *)
Definition sample_projection : DataFrame :=
  mkFrame [0; 1; 2]%Z
    [("Phone", [NaN; NaN; NaN]);
     ("Email", [PStr "ann@example.com"; PStr "bob@example.com";
                PStr "cy@example.com"])].

(** The verification service of the scenario: the second request is
    answered [invalid], the third times out, every other one is answered
    [valid]. *)
Definition sample_network : Network := λ n _ _,
  match n with
  | 1 => Ok (mkResponse 200 (Some (PDict [("status", PStr "success");
                                          ("result", PStr "invalid")])))
  | 2 => Raise (RequestException "Read timed out. (read timeout=5)")
  | _ => Ok (mkResponse 200 (Some (PDict [("status", PStr "success");
                                          ("result", PStr "valid")])))
  end.

(** A heap whose only object is the projection of [sample_table] on the
    schema [Email], [Name]. *)
Definition sample_heap : heap :=
  {[ 1%positive :=
       mkFrame [0; 1; 2]%Z
         [("Email", [PStr "ann@example.com"; PStr "bob@example.com";
                     PStr "cy@example.com"]);
          ("Name", [PStr "Ann"; PStr "Bob"; PStr "Cy"])] ]}.

(** A heap whose only object is [sample_table] itself, which has no column
    [Email]. *)
Definition unprojected_heap : heap := {[ 1%positive := sample_table ]}.


(** A stored template that names the same source column for two target
    fields, a template store that holds it and one that holds
    [sample_mapping]. *)
Definition duplicate_template : Mappings :=
  <["Email" := Some "Full Name"]> (<["Name" := Some "Full Name"]> ∅).




Definition picking_user : User :=
  mkUser (λ key, if decide (key = "mapping_Email") then Some 1 else None)
         (λ _, false).

(** A session in which [sample_table] is loaded and mapped, nothing being
    processed yet. *)
Definition sample_session : SessionState := mkSession sample_mapping None.



(** The classification of the characters of ASCII: letters, digits and the
    underscore are word characters; the white space is [09] to [0D], [1C] to
    [1F] and the space. *)
Definition ascii_word (c : string) : bool :=
  match c with
  | String b EmptyString =>
      let n := nat_of_ascii b in
      ((48 <=? n) && (n <=? 57)) || ((65 <=? n) && (n <=? 90))
      || ((97 <=? n) && (n <=? 122)) || (n =? 95)
  | _ => false
  end.

Definition ascii_space (c : string) : bool :=
  match c with
  | String b EmptyString =>
      let n := nat_of_ascii b in
      ((9 <=? n) && (n <=? 13)) || ((28 <=? n) && (n <=? 32))
  | _ => false
  end.

(** A session that lists the template [crm] and works on an empty
    mapping. *)
Definition sample_listing : Session :=
  mkSession' (<[1%positive := ∅]> {[ 2%positive := sample_mapping ]})
             1%positive {[ "crm" := 2%positive ]}.

(** A decoder and a parser to run the loader on: the decoder accepts the
    bytes of ASCII, the parser refuses the empty text and gives
    [sample_table] for any other. *)
Definition ascii_decode (raw : list byte) : result string :=
  if forallb (λ b, (Byte.to_N b <? 128)%N) raw
  then Ok (String.string_of_list_byte raw)
  else Raise (ValueError "'utf-8' codec can't decode byte: invalid start byte").

Definition sample_parser (content : string) : result DataFrame :=
  if decide (content = "") then
    Raise (ValueError "No columns to parse from file")
  else Ok sample_table.

(** A directory with the template [crm] and a file [old.json] that is not
    JSON. *)
Definition broken_directory : Directory :=
  <["old" := BadFile (JSONDecodeError "Expecting value")]>
    {[ "crm" := JsonFile sample_mapping ]}.

(** A directory in which the name [MyTemplate] is taken. *)
Definition taken_directory : Directory := {[ "MyTemplate" := JsonFile ∅ ]}.

(** * Properties *)

(** ** Columns of a frame *)

Section frames.
Implicit Types (data : list (string * list pyval)) (key k : string)
  (vs : list pyval) (df : DataFrame).

Lemma lookup_column_None key data :
  lookup_column key data = None ↔ key ∉ data.*1.
Proof.
  induction data as [|[k old] data IH]; simpl.
  - split; [intros _; apply not_elem_of_nil | done].
  - case_decide as Hk; subst.
    + split; [done | intros []; left].
    + rewrite IH, not_elem_of_cons.
      split; [intros ?; split; [congruence | done] | by intros [_ ?]].
Qed.

Lemma lookup_column_is_Some key data :
  is_Some (lookup_column key data) ↔ key ∈ data.*1.
Proof.
  rewrite <-not_eq_None_Some, lookup_column_None.
  split; [apply dec_stable | auto].
Qed.

Lemma getitem_lookup df key vs :
  lookup_column key (df_data df) = Some vs →
  getitem df key = Ok (mkSeries (df_index df) vs).
Proof. unfold getitem. by intros ->. Qed.

Lemma lookup_set_column_eq key vs data :
  lookup_column key (set_column key vs data) = Some vs.
Proof.
  induction data as [|[k old] data IH]; simpl.
  - by rewrite decide_True.
  - case_decide; simpl; [by rewrite decide_True | by rewrite decide_False].
Qed.

Lemma lookup_set_column_ne key k vs data :
  k ≠ key → lookup_column k (set_column key vs data) = lookup_column k data.
Proof.
  intros Hne. induction data as [|[k' old] data IH]; simpl.
  - by rewrite decide_False.
  - case_decide; simpl; subst.
    + by rewrite !decide_False.
    + case_decide; [done | apply IH].
Qed.


Lemma columns_set_column_new key vs data :
  key ∉ data.*1 → (set_column key vs data).*1 = data.*1 ++ [key].
Proof.
  induction data as [|[k old] data IH]; simpl; [done |].
  intros [Hne Hin]%not_elem_of_cons. rewrite decide_False by done.
  simpl. f_equal. by apply IH.
Qed.

Lemma Forall_set_column (P : string * list pyval → Prop) key vs data :
  Forall P data → (∀ k, P (k, vs)) → Forall P (set_column key vs data).
Proof.
  intros Hall Hvs. induction Hall as [|[k old] data HP Hall IH]; simpl.
  - by constructor.
  - case_decide; constructor; auto.
Qed.

Lemma wf_setitem_scalar df key v :
  wf_frame df → wf_frame (setitem_scalar df key v).
Proof.
  intros Hwf. apply Forall_set_column; [done |].
  intros k. simpl. apply length_replicate.
Qed.

Lemma wf_lookup_column df key vs :
  wf_frame df → lookup_column key (df_data df) = Some vs →
  length vs = nrows df.
Proof.
  unfold wf_frame, nrows. generalize (length (df_index df)) as n.
  intros n Hwf. induction Hwf as [|[k old] data Hlen Hwf IH]; simpl; [done |].
  case_decide; [by intros [= <-] | done].
Qed.

Lemma setitem_list_aligned df key (l : list pyval) :
  length l = length (df_index df) →
  setitem_list df key l
  = Ok (mkFrame (df_index df) (set_column key l (df_data df))).
Proof.
  intros Hlen. unfold setitem_list, ensure_valid_index. simpl.
  destruct (df_index df) as [|i idx] eqn:Hidx.
  - apply nil_length_inv in Hlen. subst l. simpl. rewrite Hidx.
    by rewrite decide_True.
  - rewrite Hidx. by rewrite decide_True.
Qed.

Lemma length_select {A} (mask : list bool) (l : list A) :
  length (select mask l) ≤ length l.
Proof.
  revert l. induction mask as [|b mask IH]; intros [|x l]; simpl; try lia.
  specialize (IH l). destruct b; simpl; lia.
Qed.

Lemma length_select_eq {A B} (mask : list bool) (l : list A) (k : list B) :
  length l = length k → length (select mask l) = length (select mask k).
Proof.
  revert l k. induction mask as [|b mask IH]; intros [|x l] [|y k]; simpl;
    try done.
  intros [= Hlen]. destruct b; simpl; auto.
Qed.

Lemma wf_boolean_mask df mask :
  wf_frame df → wf_frame (boolean_mask df mask).
Proof.
  unfold wf_frame, boolean_mask. simpl. intros Hwf.
  apply Forall_map. eapply Forall_impl; [exact Hwf |].
  intros c Hc. simpl. by apply length_select_eq.
Qed.

Lemma columns_boolean_mask df mask :
  columns (boolean_mask df mask) = columns df.
Proof.
  unfold columns, boolean_mask. simpl.
  induction (df_data df) as [|c data IH]; simpl; [done | by f_equal].
Qed.

Lemma lookup_column_boolean_mask df mask key :
  lookup_column key (df_data (boolean_mask df mask))
  = select mask <$> lookup_column key (df_data df).
Proof.
  unfold boolean_mask. simpl.
  induction (df_data df) as [|[k old] data IH]; simpl; [done |].
  case_decide; [done | apply IH].
Qed.

End frames.

(** ** The Transformer: [process_data] *)

Section process_data.
Variables (df : DataFrame) (mappings : Mappings).
Hypothesis df_wf : wf_frame df.

Local Abbreviation loop_index := (loop_index df).
Local Abbreviation mapped := (mapped mappings).

Lemma process_step_unmapped processed target :
  mapped target = false →
  process_step df mappings processed target
  = Ok (setitem_scalar processed target PNone).
Proof.
  unfold mapped, process_step. intros Hm.
  destruct (dict_get mappings target) as [src|]; [by rewrite Hm | done].
Qed.

Lemma mapped_source target :
  mapped target = true →
  ∃ src, dict_get mappings target = Some src ∧ src ≠ "".
Proof.
  unfold mapped, truthy. destruct (dict_get mappings target) as [src|]; [|done].
  intros Hne%negb_true_iff%bool_decide_eq_false. eauto.
Qed.

Lemma process_step_mapped processed target src :
  dict_get mappings target = Some src → src ≠ "" →
  process_step df mappings processed target
  = (s ← getitem df src; setitem_series processed target s).
Proof.
  unfold process_step. intros -> Hne. simpl.
  by rewrite bool_decide_eq_false_2.
Qed.

(** Setting a column of the source on the frame under construction never
    needs a realignment. *)
Lemma setitem_series_source processed target vs :
  loop_index processed → length vs = nrows df →
  setitem_series processed target (mkSeries (df_index df) vs)
  = Ok (mkFrame (df_index df)
          (set_column target vs
             (df_data (ensure_valid_index processed
                         (mkSeries (df_index df) vs))))).
Proof.
  unfold nrows, setitem_series, ensure_valid_index, reindex_for_setitem.
  intros Hidx Hlen. simpl.
  destruct (df_index processed) as [|l idx] eqn:Hp.
  - destruct vs as [|v vs]; simpl.
    + symmetry in Hlen. apply nil_length_inv in Hlen.
      rewrite Hp, Hlen. by rewrite decide_True.
    + by rewrite decide_True.
  - destruct Hidx as [|Heq]; [congruence |].
    simpl. rewrite Heq. by rewrite decide_True.
Qed.

Lemma process_step_found processed target src vs :
  loop_index processed →
  dict_get mappings target = Some src → src ≠ "" →
  lookup_column src (df_data df) = Some vs →
  process_step df mappings processed target
  = Ok (mkFrame (df_index df)
          (set_column target vs
             (df_data (ensure_valid_index processed
                         (mkSeries (df_index df) vs))))).
Proof.
  intros Hidx Hget Hne Hcol.
  rewrite (process_step_mapped _ _ src) by done.
  unfold getitem. rewrite Hcol. simpl.
  apply setitem_series_source; [done |]. by eapply wf_lookup_column.
Qed.

Lemma process_step_missing processed target src :
  dict_get mappings target = Some src → src ≠ "" → src ∉ columns df →
  process_step df mappings processed target = Raise (KeyError src).
Proof.
  intros Hget Hne Hcol.
  rewrite (process_step_mapped _ _ src) by done.
  unfold getitem. apply lookup_column_None in Hcol. by rewrite Hcol.
Qed.

(** The index after one pass of the loop. *)
Lemma process_step_index processed target processed' :
  loop_index processed →
  process_step df mappings processed target = Ok processed' →
  df_index processed'
  = if mapped target then df_index df else df_index processed.
Proof.
  intros Hidx Hstep. destruct (mapped target) eqn:Hm.
  - destruct (mapped_source _ Hm) as (src & Hget & Hne).
    destruct (lookup_column src (df_data df)) as [vs|] eqn:Hcol.
    + rewrite (process_step_found _ _ src vs) in Hstep by done.
      by injection Hstep as <-.
    + apply lookup_column_None in Hcol.
      by rewrite (process_step_missing _ _ src) in Hstep.
  - rewrite process_step_unmapped in Hstep by done. by injection Hstep as <-.
Qed.

Lemma process_step_loop_index processed target processed' :
  loop_index processed →
  process_step df mappings processed target = Ok processed' →
  loop_index processed'.
Proof.
  intros Hidx Hstep. unfold loop_index.
  rewrite (process_step_index _ _ _ Hidx Hstep).
  destruct (mapped target); [by right | done].
Qed.

Lemma wf_ensure_valid_index processed s :
  wf_frame processed → wf_frame (ensure_valid_index processed s).
Proof.
  unfold ensure_valid_index. intros Hwf.
  destruct (df_index processed); [|done]. destruct (s_values s); [done |].
  unfold wf_frame. simpl. apply Forall_map, Forall_true.
  intros c. simpl. apply length_replicate.
Qed.

Lemma process_step_wf processed target processed' :
  loop_index processed → wf_frame processed →
  process_step df mappings processed target = Ok processed' →
  wf_frame processed'.
Proof.
  intros Hidx Hwf Hstep. destruct (mapped target) eqn:Hm.
  - destruct (mapped_source _ Hm) as (src & Hget & Hne).
    destruct (lookup_column src (df_data df)) as [vs|] eqn:Hcol.
    + rewrite (process_step_found _ _ src vs) in Hstep by done.
      injection Hstep as <-.
      pose proof (wf_lookup_column _ _ _ df_wf Hcol) as Hlen.
      pose proof (wf_ensure_valid_index processed
                    (mkSeries (df_index df) vs) Hwf) as Hwf'.
      assert (df_index (ensure_valid_index processed
                          (mkSeries (df_index df) vs)) = df_index df) as Hi.
      { unfold ensure_valid_index. simpl.
        destruct (df_index processed) as [|l idx] eqn:Hp.
        - destruct vs; simpl; [|done].
          symmetry in Hlen. apply nil_length_inv in Hlen. congruence.
        - destruct Hidx; congruence. }
      unfold wf_frame in *. simpl. rewrite Hi in Hwf'.
      apply Forall_set_column; [done | by intros k].
    + apply lookup_column_None in Hcol.
      by rewrite (process_step_missing _ _ src) in Hstep.
  - rewrite process_step_unmapped in Hstep by done. injection Hstep as <-.
    by apply wf_setitem_scalar.
Qed.

Lemma null_column_setitem_scalar processed target t :
  null_column processed t ∨ t = target →
  null_column (setitem_scalar processed target PNone) t.
Proof.
  intros Hnull. unfold null_column, setitem_scalar, nrows. simpl.
  destruct (decide (t = target)) as [->|Hne].
  - exists (replicate (length (df_index processed)) PNone).
    rewrite lookup_set_column_eq, length_replicate.
    split_and!; [done | done |]. by apply Forall_replicate.
  - destruct Hnull as [(cells & Hcol & Hlen & Hna)|]; [|done].
    exists cells. by rewrite lookup_set_column_ne.
Qed.

Lemma lookup_column_nan_fill key n (data : list (string * list pyval)) :
  lookup_column key (map (λ c, (c.1, replicate n NaN)) data)
  = (λ _, replicate n NaN) <$> lookup_column key data.
Proof.
  induction data as [|[k old] data IH]; simpl; [done |].
  case_decide; [done | apply IH].
Qed.

Lemma process_step_null processed target processed' t :
  loop_index processed →
  mapped t = false →
  process_step df mappings processed target = Ok processed' →
  null_column processed t ∨ t = target →
  null_column processed' t.
Proof.
  intros Hidx Ht Hstep Hnull. destruct (mapped target) eqn:Hm.
  - destruct Hnull as [(cells & Hcol & Hlen & Hna)| ->]; [|congruence].
    assert (t ≠ target) as Hne by (intros ->; congruence).
    destruct (mapped_source _ Hm) as (src & Hget & Hsrc).
    destruct (lookup_column src (df_data df)) as [vs|] eqn:Hvs.
    + rewrite (process_step_found _ _ src vs) in Hstep by done.
      injection Hstep as <-. unfold null_column, nrows. simpl.
      rewrite lookup_set_column_ne by done.
      pose proof (wf_lookup_column _ _ _ df_wf Hvs) as Hvlen.
      unfold ensure_valid_index, nrows in *. simpl.
      destruct (df_index processed) as [|l idx] eqn:Hp.
      * destruct vs as [|v vs]; simpl.
        -- exists cells. simpl in *. split_and!; [done | congruence | done].
        -- rewrite lookup_column_nan_fill, Hcol. simpl.
           eexists. split_and!; [done | apply length_replicate |].
           by apply Forall_replicate.
      * exists cells. destruct Hidx as [|Heq]; [congruence |].
        split_and!; [done | congruence | done].
    + apply lookup_column_None in Hvs.
      by rewrite (process_step_missing _ _ src) in Hstep.
  - rewrite process_step_unmapped in Hstep by done. injection Hstep as <-.
    by apply null_column_setitem_scalar.
Qed.

(** The loop as a whole, from any state it can be in. *)
Lemma process_loop_index targets processed p :
  loop_index processed →
  for_each (process_step df mappings) targets processed = Ok p →
  df_index p
  = if existsb mapped targets then df_index df else df_index processed.
Proof.
  revert processed. induction targets as [|target targets IH];
    intros processed Hidx Hloop; simpl in *.
  - by injection Hloop as <-.
  - destruct (process_step df mappings processed target) as [processed'|e]
      eqn:Hstep; [|done]. simpl in Hloop.
    pose proof (process_step_loop_index _ _ _ Hidx Hstep) as Hidx'.
    rewrite (IH _ Hidx' Hloop), (process_step_index _ _ _ Hidx Hstep).
    destruct (mapped target); simpl; [by destruct (existsb _ _) | done].
Qed.


Lemma process_loop_null targets processed p t :
  loop_index processed →
  mapped t = false →
  for_each (process_step df mappings) targets processed = Ok p →
  null_column processed t ∨ t ∈ targets →
  null_column p t.
Proof.
  revert processed. induction targets as [|target targets IH];
    intros processed Hidx Ht Hloop Hnull; simpl in *.
  - injection Hloop as <-. destruct Hnull as [|[]%elem_of_nil]; done.
  - destruct (process_step df mappings processed target) as [processed'|e]
      eqn:Hstep; [|done]. simpl in Hloop.
    eapply IH; [by eapply process_step_loop_index | done | exact Hloop |].
    destruct Hnull as [Hnull|[->|Hin]%elem_of_cons].
    + left. eapply process_step_null; eauto.
    + left. eapply process_step_null; eauto.
    + by right.
Qed.

(** The loop raises exactly when it reaches a target whose source is not a
    column of the table, and what it raises is the [KeyError] of [df[source]]. *)
Lemma process_loop_raise targets processed e :
  loop_index processed →
  for_each (process_step df mappings) targets processed = Raise e →
  ∃ target src, target ∈ targets ∧ dict_get mappings target = Some src
                ∧ src ≠ "" ∧ (src ∉ columns df) ∧ e = KeyError src.
Proof.
  revert processed. induction targets as [|target targets IH];
    intros processed Hidx Hloop; simpl in *; [done |].
  destruct (process_step df mappings processed target) as [processed'|e']
    eqn:Hstep; simpl in Hloop.
  - destruct (IH processed') as (t & src & Hin & H);
      [by eapply process_step_loop_index | done |].
    exists t, src. split; [by right | done].
  - injection Hloop as ->. destruct (mapped target) eqn:Hm.
    + destruct (mapped_source _ Hm) as (src & Hget & Hsrc).
      destruct (lookup_column src (df_data df)) as [vs|] eqn:Hvs.
      * by rewrite (process_step_found _ _ src vs) in Hstep.
      * apply lookup_column_None in Hvs.
        rewrite (process_step_missing _ _ src) in Hstep by done.
        injection Hstep as <-. exists target, src. split_and!; try done. by left.
    + by rewrite process_step_unmapped in Hstep.
Qed.

Lemma process_loop_ok targets processed :
  loop_index processed →
  (∀ target src, target ∈ targets → dict_get mappings target = Some src →
                 src ≠ "" → src ∈ columns df) →
  ∃ p, for_each (process_step df mappings) targets processed = Ok p.
Proof.
  revert processed. induction targets as [|target targets IH];
    intros processed Hidx Hsrc; simpl; [by eexists |].
  assert (∃ processed',
            process_step df mappings processed target = Ok processed')
    as [processed' Hstep].
  { destruct (mapped target) eqn:Hm.
    - destruct (mapped_source _ Hm) as (src & Hget & Hne).
      assert (src ∈ columns df) as Hin by (eapply Hsrc; [left | |]; done).
      apply lookup_column_is_Some in Hin as [vs Hvs].
      rewrite (process_step_found _ _ src vs) by done. by eexists.
    - rewrite process_step_unmapped by done. by eexists. }
  rewrite Hstep. simpl. apply IH; [by eapply process_step_loop_index |].
  intros t src Hin. apply Hsrc. by right.
Qed.

End process_data.

Lemma sample_table_wf : wf_frame sample_table.
Proof. repeat constructor. Qed.

(** C4, as stated, fails: on the empty schema [process_data] returns the
    empty table instead of failing, and on a non-empty schema it raises
    [KeyError] when a field is mapped to a name that is not a column. *)
Lemma process_data_schema_error_counterexample :
  process_data sample_table sample_mapping [] = Ok empty_frame
  ∧ process_data sample_table (<["Email" := Some "Mail"]> ∅) ["Email"]
    = Raise (KeyError "Mail").
Proof. split; reflexivity. Qed.

(** C4, amended: [process_data] has no schema error, the empty schema gives
    the empty table; it fails exactly when some field of the schema is mapped
    to a non-empty name that is not a column of the source table, with the
    [KeyError] of that name; whenever it returns, each unmapped field of the
    schema is a column holding one missing value per row. *)
Theorem process_data_failure df mappings target_columns :
  wf_frame df →
  process_data df mappings [] = Ok empty_frame
  ∧ ((∃ e, process_data df mappings target_columns = Raise e)
     ↔ ∃ target src, target ∈ target_columns
                     ∧ dict_get mappings target = Some src
                     ∧ src ≠ "" ∧ src ∉ columns df)
  ∧ (∀ e, process_data df mappings target_columns = Raise e →
          ∃ src, e = KeyError src ∧ src ∉ columns df)
  ∧ (∀ p target, process_data df mappings target_columns = Ok p →
                 target ∈ target_columns → mapped mappings target = false →
                 null_column p target).
Proof.
  intros Hwf. unfold process_data.
  assert (loop_index df empty_frame) as Hidx by (by left).
  split_and!.
  - done.
  - split.
    + intros [e He].
      destruct (process_loop_raise df mappings Hwf _ _ _ Hidx He)
        as (target & src & ? & ? & ? & ? & _).
      by exists target, src.
    + intros (target & src & Hin & Hget & Hne & Hcol).
      destruct (for_each _ target_columns empty_frame) as [p|e] eqn:Hloop;
        [|by eexists].
      exfalso.
      assert (mapped mappings target = true) as Hm.
      { unfold mapped. rewrite Hget. simpl. by rewrite bool_decide_eq_false_2. }
      clear Hidx. revert Hloop. generalize empty_frame.
      induction target_columns as [|t targets IH]; intros processed Hloop;
        [by apply elem_of_nil in Hin |].
      simpl in Hloop.
      destruct (process_step df mappings processed t) as [processed'|e]
        eqn:Hstep; [|done].
      apply elem_of_cons in Hin as [<-|Hin]; [|by eapply IH].
      rewrite (process_step_mapped _ _ _ _ src) in Hstep by done.
      unfold getitem in Hstep. apply lookup_column_None in Hcol.
      by rewrite Hcol in Hstep.
  - intros e He.
    destruct (process_loop_raise df mappings Hwf _ _ _ Hidx He)
      as (target & src & ? & ? & ? & ? & ->).
    by exists src.
  - intros p target Hloop Hin Hm.
    eapply process_loop_null; [done | done | done | exact Hloop | by right].
Qed.

Lemma process_data_failure_witness :
  wf_frame sample_table
  ∧ null_column
      (mkFrame [0; 1; 2]%Z
         [("Email", [PStr "ann@example.com"; PStr "bob@example.com";
                     PStr "cy@example.com"]);
          ("Phone", [PNone; PNone; PNone])])
      "Phone".
Proof.
  split; [exact sample_table_wf |].
  apply (process_data_failure sample_table sample_mapping ["Email"; "Phone"]
           sample_table_wf).
  - reflexivity.
  - apply elem_of_cons; right; apply elem_of_cons; left; reflexivity.
  - reflexivity.
Defined.

(** C5, as stated, fails: with no field mapped the projected table has no
    rows, whatever the source table holds. *)
Lemma process_data_row_count_counterexample :
  ∃ p, process_data sample_table ∅ ["Email"; "Name"] = Ok p
       ∧ nrows p = 0 ∧ nrows sample_table = 3.
Proof. eexists. split_and!; reflexivity. Qed.

(** C5, amended: the table returned by [process_data] has exactly as many
    rows as the source table as soon as one field of the schema is mapped,
    and no row when none is (in particular on the empty schema). *)
Theorem process_data_row_count df mappings target_columns p :
  wf_frame df →
  process_data df mappings target_columns = Ok p →
  nrows p = if existsb (mapped mappings) target_columns then nrows df else 0.
Proof.
  intros Hwf Hloop. unfold nrows.
  assert (loop_index df empty_frame) as Hidx by (by left).
  rewrite (process_loop_index df mappings Hwf _ _ _ Hidx Hloop).
  by destruct (existsb _ _).
Qed.

Lemma process_data_row_count_witness :
  wf_frame sample_table
  ∧ process_data sample_table sample_mapping ["Phone"; "Email"]
    = Ok sample_projection
  ∧ nrows sample_projection = nrows sample_table.
Proof.
  split; [exact sample_table_wf |]. split; [reflexivity |].
  exact (process_data_row_count sample_table sample_mapping
           ["Phone"; "Email"] _ sample_table_wf eq_refl).
Defined.

(** ** The Validator: [verify_emails] *)

Lemma length_status_loop net api_key n emails :
  length (status_loop net api_key n emails) = length emails.
Proof.
  revert n. induction emails as [|email emails IH]; intros n; simpl;
    [done | by rewrite IH].
Qed.

Lemma lookup_status_loop net api_key n emails i email :
  emails !! i = Some email →
  status_loop net api_key n emails !! i
  = Some (check_email (net (n + i)) api_key email).
Proof.
  revert n i. induction emails as [|e emails IH]; intros n [|i]; simpl;
    try done.
  - intros [= ->]. by rewrite Nat.add_0_r.
  - intros Hi. rewrite (IH (S n) i Hi). do 3 f_equal. lia.
Qed.

(** The one request of a row decides its outcome, by cases on what the
    request gives. *)
Lemma check_email_cases post api_key email :
  check_email post api_key email
  = match post api_key email with
    | Raise _ => PStr "error"
    | Ok res =>
        match body res with
        | Some (PDict d) => default (PStr "invalid") (assoc "result" d)
        | _ => PStr "error"
        end
    end.
Proof.
  unfold check_email, json.
  destruct (post api_key email) as [[code [j|]]|e]; simpl; try done.
  by destruct j.
Qed.

Section verify_emails.
Variables (net : Network) (h : heap) (df : loc) (api_key : string).
Variable frame : DataFrame.
Hypothesis df_frame : h !! df = Some frame.

Lemma verify_emails_absent :
  "Email" ∉ columns frame → verify_emails net h df api_key = Ok (h, df).
Proof.
  intros Hcol. unfold verify_emails.
  rewrite (lookup_total_correct _ _ _ df_frame). by rewrite decide_True.
Qed.

Hypothesis frame_wf : wf_frame frame.
Hypothesis frame_email : "Email" ∈ columns frame.

Lemma length_outcomes : length (outcomes net api_key frame) = nrows frame.
Proof.
  unfold outcomes. rewrite length_status_loop.
  apply lookup_column_is_Some in frame_email as [emails Hcol].
  rewrite Hcol. simpl. by eapply wf_lookup_column.
Qed.

Lemma length_valid_mask : length (valid_mask net api_key frame) = nrows frame.
Proof. unfold valid_mask. rewrite length_map. apply length_outcomes. Qed.

(** With the column present the function returns, and the heap it leaves
    holds the annotated frame where the input was and the selected rows
    under a new reference. *)
Lemma verify_emails_present :
  let h' := <[df := annotated net api_key frame]> h in
  let out := fresh (dom h') in
  verify_emails net h df api_key
  = Ok (<[out := boolean_mask (annotated net api_key frame)
                              (valid_mask net api_key frame)]> h', out).
Proof.
  pose proof length_outcomes as Hlen.
  unfold verify_emails, valid_mask, annotated, outcomes, nrows in *.
  rewrite (lookup_total_correct _ _ _ df_frame).
  rewrite decide_False by (by intros ?).
  apply lookup_column_is_Some in frame_email as [emails Hcol].
  rewrite Hcol in *. simpl in *.
  rewrite (getitem_lookup _ _ _ Hcol). simpl.
  rewrite setitem_list_aligned by done. simpl.
  erewrite getitem_lookup by apply lookup_set_column_eq. done.
Qed.

Lemma wf_annotated : wf_frame (annotated net api_key frame).
Proof.
  unfold wf_frame, annotated. simpl.
  apply Forall_set_column; [done |]. intros k. apply length_outcomes.
Qed.

End verify_emails.

(** Selecting rows commutes with reading the frame row by row. *)
Lemma select_cons_column (b : bool) (mask : list bool) (vs : list pyval) n :
  length vs = S n →
  select (b :: mask) vs
  = if b then hd NaN vs :: select mask (tl vs) else select mask (tl vs).
Proof. by destruct vs. Qed.

Lemma rows_of_select mask idx (data : list (string * list pyval)) :
  Forall (λ c, length c.2 = length idx) data →
  length mask = length idx →
  rows_of (select mask idx) (map (λ c, (c.1, select mask c.2)) data)
  = select mask (rows_of idx data).
Proof.
  revert mask data. induction idx as [|l idx IH]; intros [|b mask] data Hwf Hlen;
    simpl in *; try done.
  injection Hlen as Hlen.
  assert (Forall (λ c, length c.2 = length idx)
                 (map (λ c, (c.1, tl c.2)) data)) as Hwf'.
  { apply Forall_map. eapply Forall_impl; [exact Hwf |].
    intros [k [|v vs]]; simpl; [done | by intros [= ->]]. }
  specialize (IH mask _ Hwf' Hlen). rewrite map_map in IH. simpl in IH.
  destruct b; simpl.
  - f_equal.
    + f_equal. rewrite map_map. apply map_ext_Forall.
      eapply Forall_impl; [exact Hwf |]. by intros [k [|v vs]].
    + rewrite <-IH. f_equal. rewrite map_map. apply map_ext_Forall.
      eapply Forall_impl; [exact Hwf |]. by intros [k [|v vs]].
  - rewrite <-IH. f_equal. apply map_ext_Forall.
    eapply Forall_impl; [exact Hwf |]. by intros [k [|v vs]].
Qed.

Lemma rows_boolean_mask df mask :
  wf_frame df → length mask = nrows df →
  rows (boolean_mask df mask) = select mask (rows df).
Proof. intros Hwf Hlen. by apply rows_of_select. Qed.


Lemma elem_of_select {A} (mask : list bool) (l : list A) x :
  x ∈ select mask l ↔ ∃ i, l !! i = Some x ∧ mask !! i = Some true.
Proof.
  revert l. induction mask as [|b mask IH]; intros [|y l]; simpl.
  - split; [intros []%elem_of_nil | by intros (i & ? & ?)].
  - split; [intros []%elem_of_nil | by intros (i & ? & ?)].
  - split; [intros []%elem_of_nil | by intros (i & ? & ?)].
  - assert (x ∈ select mask l
            ↔ ∃ i, (y :: l) !! S i = Some x ∧ (b :: mask) !! S i = Some true)
      as Htl by apply IH.
    destruct b.
    + rewrite elem_of_cons, Htl. split.
      * intros [->|(i & ? & ?)]; [by exists 0 | by exists (S i)].
      * intros ([|i] & Hx & Hb); simpl in *; [left; congruence | right; eauto].
    + rewrite Htl. split.
      * intros (i & ? & ?). by exists (S i).
      * intros ([|i] & Hx & Hb); simpl in *; [done | eauto].
Qed.

Lemma eq_str_true v s : eq_str v s = true ↔ v = PStr s.
Proof.
  destruct v; simpl; try (split; [done | by intros [=] ]).
  rewrite bool_decide_eq_true. split; [by intros -> | by intros [= ->]].
Qed.

(** C1, as stated, fails: a response whose JSON object has no [result] is
    classified [invalid], not as an error, and the status code is never
    looked at, so that a 500 response carrying [result: valid] is classified
    [valid]. *)
Lemma check_email_counterexample :
  check_email
    (λ _ _, Ok (mkResponse 200 (Some (PDict [("status", PStr "auth_failure")]))))
    "key" (PStr "ann@example.com")
  = PStr "invalid"
  ∧ check_email
      (λ _ _, Ok (mkResponse 500 (Some (PDict [("result", PStr "valid")]))))
      "key" (PStr "ann@example.com")
    = PStr "valid".
Proof. split; reflexivity. Qed.

(** C1, amended: [verify_emails] always returns, no exception leaves it.
    The outcome of a row is [error] when its request raises (transport
    failure, timeout), when the body of the response is not JSON, and when
    the JSON document is not an object; it is [invalid] when the object has
    no [result]; otherwise it is the value of [result], whatever the status
    code of the response. *)
Theorem verify_emails_fail_open net h df api_key frame :
  h !! df = Some frame → wf_frame frame →
  (∃ h' out, verify_emails net h df api_key = Ok (h', out))
  ∧ ∀ emails i email,
      lookup_column "Email" (df_data frame) = Some emails →
      emails !! i = Some email →
      ∃ status,
        outcomes net api_key frame !! i = Some status
        ∧ (∀ e, net i api_key email = Raise e → status = PStr "error")
        ∧ (∀ res, net i api_key email = Ok res → body res = None →
                  status = PStr "error")
        ∧ (∀ res j, net i api_key email = Ok res → body res = Some j →
                    (∀ d, j ≠ PDict d) → status = PStr "error")
        ∧ (∀ res d, net i api_key email = Ok res →
                    body res = Some (PDict d) → assoc "result" d = None →
                    status = PStr "invalid")
        ∧ (∀ res d v, net i api_key email = Ok res →
                      body res = Some (PDict d) → assoc "result" d = Some v →
                      status = v).
Proof.
  intros Hdf Hwf. split.
  - destruct (decide ("Email" ∈ columns frame)) as [Hcol|Hcol].
    + rewrite (verify_emails_present net h df api_key frame) by done.
      by eexists _, _.
    + rewrite (verify_emails_absent net h df api_key frame) by done.
      by eexists _, _.
  - intros emails i email Hcol Hi. eexists. split.
    { unfold outcomes. rewrite Hcol. simpl.
      by rewrite (lookup_status_loop _ _ _ _ _ _ Hi). }
    simpl. rewrite check_email_cases. split_and!.
    + by intros e ->.
    + by intros res -> ->.
    + intros res j -> -> Hj. destruct j; try done. by destruct (Hj d).
    + by intros res d -> -> ->.
    + by intros res d v -> -> ->.
Qed.

Lemma verify_emails_fail_open_witness :
  sample_heap !! 1%positive = Some (sample_heap !!! 1%positive)
  ∧ wf_frame (sample_heap !!! 1%positive)
  ∧ ∃ h' out, verify_emails sample_network sample_heap 1 "key" = Ok (h', out).
Proof.
  split; [reflexivity |]. split; [repeat constructor |].
  refine (proj1 (verify_emails_fail_open sample_network sample_heap 1 "key"
                   _ eq_refl _)).
  repeat constructor.
Defined.

(** C8: on a table without the column [Email], [verify_emails] returns the
    very reference it was given and leaves the heap as it was: the caller
    gets its own table back, with the same rows. *)
Theorem verify_emails_noop net h df api_key frame :
  h !! df = Some frame → "Email" ∉ columns frame →
  ∃ h' out,
    verify_emails net h df api_key = Ok (h', out)
    ∧ out = df ∧ h' = h ∧ h' !! out = Some frame.
Proof.
  intros Hdf Hcol. exists h, df.
  by rewrite (verify_emails_absent net h df api_key frame).
Qed.

Lemma verify_emails_noop_witness :
  unprojected_heap !! 1%positive = Some sample_table
  ∧ ("Email" ∉ columns sample_table)
  ∧ verify_emails sample_network unprojected_heap 1 "key"
    = Ok (unprojected_heap, 1%positive).
Proof.
  assert (unprojected_heap !! 1%positive = Some sample_table) as Hdf
    by reflexivity.
  assert ("Email" ∉ columns sample_table) as Hcol.
  { apply (bool_decide_unpack _). reflexivity. }
  split; [exact Hdf |]. split; [exact Hcol |].
  destruct (verify_emails_noop sample_network unprojected_heap
              1 "key" sample_table Hdf Hcol)
    as (h' & out & Hrun & -> & -> & _).
  exact Hrun.
Defined.

(** C2: on a table that has the column [Email], the table returned by
    [verify_emails] consists of the rows of the annotated input whose outcome
    is exactly the string [valid], in their order; it cannot have more rows
    than the input. *)
Theorem verify_emails_filter net h df api_key frame :
  h !! df = Some frame → wf_frame frame → "Email" ∈ columns frame →
  ∃ h' out res,
    verify_emails net h df api_key = Ok (h', out)
    ∧ h' !! out = Some res
    ∧ df_index res = select (valid_mask net api_key frame) (df_index frame)
    ∧ rows res = select (valid_mask net api_key frame)
                        (rows (annotated net api_key frame))
    ∧ (∀ r, r ∈ rows res
            ↔ ∃ i, rows (annotated net api_key frame) !! i = Some r
                   ∧ outcomes net api_key frame !! i = Some (PStr "valid"))
    ∧ nrows res ≤ nrows frame.
Proof.
  intros Hdf Hwf Hcol.
  rewrite (verify_emails_present net h df api_key frame) by done.
  pose proof (length_valid_mask net api_key frame Hwf Hcol) as Hlen.
  pose proof (wf_annotated net api_key frame Hwf Hcol) as Hwf'.
  eexists _, _, _. split; [done |]. split; [apply lookup_insert_eq |].
  assert (rows (boolean_mask (annotated net api_key frame)
                             (valid_mask net api_key frame))
          = select (valid_mask net api_key frame)
                   (rows (annotated net api_key frame))) as Hrows
    by (by apply rows_boolean_mask).
  split_and!.
  - done.
  - done.
  - intros r. rewrite Hrows, elem_of_select. unfold valid_mask.
    split; intros (i & Hr & Hi); exists i; (split; [done |]).
    + rewrite list_lookup_fmap in Hi.
      destruct (outcomes net api_key frame !! i) as [v|]; [|done].
      simpl in Hi. injection Hi as Hi. apply eq_str_true in Hi. by subst.
    + by rewrite list_lookup_fmap, Hi.
  - apply length_select.
Qed.

Lemma verify_emails_filter_witness :
  sample_heap !! 1%positive = Some (sample_heap !!! 1%positive)
  ∧ wf_frame (sample_heap !!! 1%positive)
  ∧ "Email" ∈ columns (sample_heap !!! 1%positive)
  ∧ ∃ h' out res,
      verify_emails sample_network sample_heap 1 "key" = Ok (h', out)
      ∧ h' !! out = Some res
      ∧ rows res = [(0%Z, [PStr "ann@example.com"; PStr "Ann"; PStr "valid"])].
Proof.
  assert ("Email" ∈ columns (sample_heap !!! 1%positive)) as Hcol.
  { apply (bool_decide_unpack _). reflexivity. }
  assert (wf_frame (sample_heap !!! 1%positive)) as Hwf
    by (repeat constructor).
  split; [reflexivity |]. split; [exact Hwf |]. split; [exact Hcol |].
  destruct (verify_emails_filter sample_network sample_heap 1 "key"
              _ eq_refl Hwf Hcol)
    as (h' & out & res & Hrun & Hres & _ & Hrows & _).
  exists h', out, res. split; [exact Hrun |]. split; [exact Hres |].
  exact Hrows.
Defined.




(** ** The mapping: no source bound twice *)

Lemma dict_get_insert (m : Mappings) t v t' :
  dict_get (<[t := v]> m) t' = if decide (t = t') then v else dict_get m t'.
Proof.
  unfold dict_get. case_decide; subst.
  - by rewrite lookup_insert_eq.
  - by rewrite lookup_insert_ne.
Qed.

Lemma bound_insert (m : Mappings) t v t' s :
  bound (<[t := v]> m) t' s
  ↔ (t = t' ∧ v = Some s ∧ s ≠ "" ∧ s ≠ IGNORE) ∨ (t ≠ t' ∧ bound m t' s).
Proof.
  unfold bound. rewrite dict_get_insert. case_decide; naive_solver.
Qed.

Lemma unique_sources_empty : unique_sources ∅.
Proof.
  intros t1 t2 s [Hget _]. unfold dict_get in Hget.
  by rewrite lookup_empty in Hget.
Qed.

(** Unsetting a target keeps the invariant of the loop. *)
Lemma unique_sources_clear (m : Mappings) t :
  unique_sources m → unique_sources (<[t := None]> m).
Proof.
  intros Hu t1 t2 s [(_ & [=] & _)|[_ H1]]%bound_insert
                    [(_ & [=] & _)|[_ H2]]%bound_insert.
  by eapply Hu.
Qed.

(** The values enumerated before the loop are the bound sources. *)
Lemma elem_of_initial_used_sources (m : Mappings) s :
  s ∈ initial_used_sources m ↔ ∃ t, bound m t s.
Proof.
  unfold initial_used_sources, bound, dict_get. rewrite list_elem_of_omap.
  split.
  - intros (v & Hv & Hs). apply list_elem_of_fmap in Hv as ([t v'] & -> & Hin).
    apply elem_of_map_to_list in Hin. simpl in Hs.
    destruct v' as [s'|]; [|done]. simpl in Hs.
    destruct (bool_decide (s' = "")) eqn:He; [done |].
    destruct (bool_decide (s' = IGNORE)) eqn:Hi; [done |].
    simpl in Hs. injection Hs as ->.
    apply bool_decide_eq_false in He, Hi. exists t. by rewrite Hin.
  - intros (t & Hget & He & Hi).
    destruct (m !! t) as [v|] eqn:Hm; [|done]. subst v.
    exists (Some s). split.
    + apply list_elem_of_fmap. exists (t, Some s). split; [done |].
      by apply elem_of_map_to_list.
    + simpl. by rewrite !bool_decide_eq_false_2.
Qed.

(** What a select box returns is one of its options. *)
Lemma list_index_lookup x l i : list_index x l = Some i → l !! i = Some x.
Proof.
  revert i. induction l as [|y l IH]; intros i; simpl; [done |].
  case_decide; subst; [by intros [= <-] |].
  destruct (list_index x l) as [j|]; simpl; [|done].
  intros [= <-]. by apply IH.
Qed.

Lemma selectbox_elem_of u key current options :
  selectbox u key (IGNORE :: options)
            (default_index current (IGNORE :: options))
  ∈ IGNORE :: options.
Proof.
  unfold selectbox.
  destruct (pick u key ≫= _) as [s|] eqn:Hpick.
  - destruct (pick u key) as [i|]; simpl in Hpick; [|done].
    by eapply list_elem_of_lookup_2.
  - unfold default_index. destruct current as [c|]; [|left].
    destruct (list_index c (IGNORE :: options)) as [i|] eqn:Hi; [|left].
    apply list_index_lookup in Hi.
    erewrite nth_lookup_Some by done. by eapply list_elem_of_lookup_2.
Qed.

(** The invariant of the loop of [render_column_mapping]: no source is bound
    twice, and every bound source is in [used_sources]. *)
Lemma mapping_rows_unique u df_columns targets (m : Mappings) used_sources :
  unique_sources m →
  (∀ t s, bound m t s → s ∈ used_sources) →
  unique_sources (mapping_rows u df_columns targets m used_sources).
Proof.
  revert m used_sources.
  induction targets as [|target targets IH]; intros m used Hu Hused; simpl;
    [done |].
  set (current_source := dict_get m target).
  set (options := merge_sort String.le _).
  set (selected := selectbox _ _ _ _).
  assert (selected ∈ IGNORE :: options) as Hsel
    by apply selectbox_elem_of.
  destruct (decide (selected ≠ IGNORE)) as [Hne|_].
  - (* a source column is selected *)
    apply elem_of_cons in Hsel as [|Hsel]; [done |].
    unfold options in Hsel. rewrite merge_sort_Permutation in Hsel.
    apply list_elem_of_filter in Hsel as [Havail _].
    assert (unique_sources (<[target := Some selected]> m)) as Hu'.
    { assert (∀ t s, bound m t s → Some selected = Some s → t = target)
        as Hsame.
      { intros t s Hb [= <-]. destruct Havail as [Hnew|Hcur].
        - destruct Hnew. eauto.
        - eapply Hu; [exact Hb |]. destruct Hb as (_ & ? & ?). by split. }
      intros t1 t2 s H1 H2. apply bound_insert in H1, H2.
      destruct H1 as [(E1 & Es1 & _)|[Hn1 H1]],
               H2 as [(E2 & Es2 & _)|[Hn2 H2]].
      - congruence.
      - rewrite (Hsame _ _ H2 Es1). congruence.
      - rewrite (Hsame _ _ H1 Es2). congruence.
      - by eapply Hu. }
    assert (∀ used' : list string,
              (∀ s, s ∈ used → s ∈ used') → selected ∈ used' →
              ∀ t s, bound (<[target := Some selected]> m) t s → s ∈ used')
      as Hused'.
    { intros used' Hsub Hin t s [(_ & [= <-] & _)|[_ H]]%bound_insert;
        [done | eauto]. }
    destruct (_ && _).
    + by apply unique_sources_clear.
    + apply IH; [done |]. case_decide.
      * apply (Hused' (used ++ [selected])); [intros s ?|];
          apply elem_of_app; [by left |].
        right. by left.
      * by apply (Hused' used); [auto |].
  - (* the ignore entry is selected *)
    assert (unique_sources (<[target := None]> m)) as Hu'
      by (by apply unique_sources_clear).
    destruct (_ && _).
    + by apply unique_sources_clear.
    + apply IH; [done |].
      intros t s [(_ & [=] & _)|[_ H]]%bound_insert. eauto.
Qed.

Lemma render_column_mapping_unique u df target_columns (m : Mappings) :
  unique_sources m →
  unique_sources (render_column_mapping u df target_columns m).
Proof.
  intros Hu. apply mapping_rows_unique; [done |].
  intros t s Hb. apply elem_of_initial_used_sources. eauto.
Qed.



Lemma sample_mapping_unique : unique_sources sample_mapping.
Proof.
  intros t1 t2 s H1 H2. unfold sample_mapping in *.
  repeat match goal with
         | H : bound (<[_ := _]> _) _ _ |- _ =>
             apply bound_insert in H as [(? & [= ?] & _)|[? H]]
         | H : bound ∅ _ _ |- _ =>
             destruct H as [H _]; unfold dict_get in H;
             rewrite lookup_empty in H; discriminate H
         end; congruence.
Qed.


(** ** The start action *)

(** C6: the code misses the claim.  With an API key and the check box
    ticked, the start action does not run the Validator: the call of line 347
    applies the value of the check box, the [TypeError] is caught by the
    [except] of [main] and shown, and nothing is stored. *)
Lemma start_processing_with_verification :
  start_processing sample_table ["Email"; "Name"] "key" "leads.csv" true
                   sample_session
  = (sample_session, Some "'bool' object is not callable").
Proof. reflexivity. Qed.

(** The same for every session, key and table: whenever the projection
    succeeds and verification is asked for, the start action ends in that
    error and leaves the session as it was. *)
Lemma start_processing_never_validates df TARGET_COLUMNS api_key new_filename
    st p :
  process_data df (ss_mappings st) TARGET_COLUMNS = Ok p →
  api_key ≠ "" →
  start_processing df TARGET_COLUMNS api_key new_filename true st
  = (st, Some "'bool' object is not callable").
Proof.
  intros Hp Hkey. unfold start_processing. rewrite Hp. simpl.
  by rewrite bool_decide_eq_false_2.
Qed.

(** Without verification the start action stores the projection under the
    derived file name; a failure of the projection leaves the session as it
    was and shows the error. *)
Lemma start_processing_without_verification df TARGET_COLUMNS api_key
    new_filename verify st :
  truthy (Some api_key) && verify = false →
  start_processing df TARGET_COLUMNS api_key new_filename verify st
  = match process_data df (ss_mappings st) TARGET_COLUMNS with
    | Ok p => (mkSession (ss_mappings st)
                         (Some (p, clean_filename new_filename)), None)
    | Raise e => (st, Some (str_exn e))
    end.
Proof.
  intros Hv. unfold start_processing.
  destruct (process_data _ _ _) as [p|e]; simpl; [|done].
  unfold truthy in Hv. by rewrite Hv.
Qed.

(** ** The export *)

Lemma process_step_columns df mappings processed target processed' :
  process_step df mappings processed target = Ok processed' →
  target ∉ columns processed →
  columns processed' = columns processed ++ [target].
Proof.
  assert (∀ vs data, data.*1 = columns processed → target ∉ columns processed →
            (set_column target vs data).*1 = columns processed ++ [target])
    as Hset.
  { intros vs data <- Hnew. by apply columns_set_column_new. }
  unfold process_step. intros Hstep Hnew.
  destruct (dict_get mappings target) as [src|]; simpl in Hstep.
  - destruct (bool_decide (src = "")); simpl in Hstep.
    + injection Hstep as <-. by apply Hset.
    + destruct (getitem df src) as [s|e]; simpl in Hstep; [|done].
      unfold setitem_series in Hstep.
      destruct (reindex_for_setitem _ _) as [vs|e]; simpl in Hstep; [|done].
      injection Hstep as <-. apply Hset; [|done].
      unfold ensure_valid_index.
      destruct (df_index processed); [|done]. destruct (s_values s); [done |].
      simpl. unfold columns. rewrite <-list_fmap_compose. done.
  - injection Hstep as <-. by apply Hset.
Qed.

Lemma process_loop_columns df mappings targets processed p :
  NoDup targets →
  (∀ t, t ∈ targets → t ∉ columns processed) →
  for_each (process_step df mappings) targets processed = Ok p →
  columns p = columns processed ++ targets.
Proof.
  intros Hnd. revert processed.
  induction Hnd as [|target targets Hnotin Hnd IH];
    intros processed Hnew Hloop; simpl in *.
  - injection Hloop as <-. by rewrite app_nil_r.
  - destruct (process_step df mappings processed target) as [processed'|e]
      eqn:Hstep; [|done]. simpl in Hloop.
    apply process_step_columns in Hstep; [|apply Hnew; by left].
    rewrite (IH processed'), Hstep; [by rewrite <-app_assoc | | done].
    intros t Hin. rewrite Hstep, not_elem_of_app, not_elem_of_cons.
    split; [apply Hnew; by right |]. split; [|apply not_elem_of_nil].
    by intros ->.
Qed.

(** The columns of a projection on a schema without repetition are the
    fields of the schema, in the order of the schema. *)
Lemma process_data_columns df mappings target_columns p :
  NoDup target_columns →
  process_data df mappings target_columns = Ok p →
  columns p = target_columns.
Proof.
  intros Hnd Hp.
  apply (process_loop_columns df mappings target_columns empty_frame p Hnd);
    [|done].
  intros t _. apply not_elem_of_nil.
Qed.








(** ** The loader *)


(** X22: a byte-order mark in front of the bytes changes nothing to what
    is loaded, be it a table or an error. *)
Lemma load_byte_order_mark utf_8_decode read_csv raw :
  (∀ raw', raw ≠ BOM ++ raw') →
  load_and_validate_data utf_8_decode read_csv (BOM ++ raw)
  = load_and_validate_data utf_8_decode read_csv raw.
Proof.
  intros Hraw. unfold load_and_validate_data. f_equal.
  assert (decode_utf_8_sig utf_8_decode raw = utf_8_decode raw) as ->; [|done].
  unfold decode_utf_8_sig.
  repeat match goal with
         | |- context [match ?x with _ => _ end] => destruct x; try done
         end.
  by edestruct Hraw.
Qed.

(** * Further properties of the code *)

(** ** [process_data]: what the projection holds *)

Section projection.
Variables (df : DataFrame) (mappings : Mappings).
Hypothesis df_wf : wf_frame df.

(** A projection that returns found every source it was asked for. *)
Lemma process_loop_sources targets processed p target src :
  for_each (process_step df mappings) targets processed = Ok p →
  target ∈ targets → dict_get mappings target = Some src → src ≠ "" →
  is_Some (lookup_column src (df_data df)).
Proof.
  revert processed. induction targets as [|t targets IH];
    intros processed Hloop Hin Hget Hne; [by apply elem_of_nil in Hin |].
  simpl in Hloop.
  destruct (process_step df mappings processed t) as [processed'|e] eqn:Hstep;
    [|done]. simpl in Hloop.
  apply elem_of_cons in Hin as [<-|Hin]; [|by eapply IH].
  rewrite (process_step_mapped _ _ _ _ src) in Hstep by done.
  unfold getitem in Hstep.
  by destruct (lookup_column src (df_data df)).
Qed.

(** A column that holds the cells of its source keeps them through a pass
    of the loop, and the pass for a mapped field stores them. *)
Lemma process_step_values processed t processed' target src vs :
  loop_index df processed → wf_frame processed →
  process_step df mappings processed t = Ok processed' →
  dict_get mappings target = Some src → src ≠ "" →
  lookup_column src (df_data df) = Some vs →
  t = target ∨ lookup_column target (df_data processed) = Some vs →
  lookup_column target (df_data processed') = Some vs.
Proof.
  intros Hidx Hwf Hstep Hget Hne Hvs Hcase.
  assert (mapped mappings target = true) as Hmt.
  { unfold mapped. rewrite Hget. simpl. by rewrite bool_decide_eq_false_2. }
  destruct (mapped mappings t) eqn:Hm.
  - destruct (mapped_source _ _ Hm) as (src0 & Hget0 & Hne0).
    destruct (lookup_column src0 (df_data df)) as [vs0|] eqn:Hvs0.
    + rewrite (process_step_found df mappings df_wf _ _ src0 vs0) in Hstep
        by done.
      injection Hstep as <-. simpl.
      destruct (decide (t = target)) as [->|Hnt].
      * rewrite lookup_set_column_eq. congruence.
      * rewrite lookup_set_column_ne by done.
        destruct Hcase as [|Hcol]; [done |].
        unfold ensure_valid_index. simpl.
        destruct (df_index processed) as [|l idx] eqn:Hp; [|done].
        destruct vs0 as [|v0 vs0]; [done |]. exfalso.
        pose proof (wf_lookup_column _ _ _ df_wf Hvs) as Hlen.
        pose proof (wf_lookup_column _ _ _ df_wf Hvs0) as Hlen0.
        pose proof (wf_lookup_column _ _ _ Hwf Hcol) as Hlen'.
        unfold nrows in *. rewrite Hp in Hlen'. simpl in *. lia.
    + apply lookup_column_None in Hvs0.
      by rewrite (process_step_missing _ _ _ _ src0) in Hstep.
  - rewrite process_step_unmapped in Hstep by done. injection Hstep as <-.
    destruct Hcase as [->|Hcol]; [congruence |].
    unfold setitem_scalar. simpl.
    rewrite lookup_set_column_ne; [done |]. intros ->. congruence.
Qed.

Lemma process_loop_values targets processed p target src vs :
  loop_index df processed → wf_frame processed →
  for_each (process_step df mappings) targets processed = Ok p →
  dict_get mappings target = Some src → src ≠ "" →
  lookup_column src (df_data df) = Some vs →
  target ∈ targets ∨ lookup_column target (df_data processed) = Some vs →
  lookup_column target (df_data p) = Some vs.
Proof.
  revert processed. induction targets as [|t targets IH];
    intros processed Hidx Hwf Hloop Hget Hne Hvs Hcase; simpl in *.
  - injection Hloop as <-. destruct Hcase as [[]%elem_of_nil|]; done.
  - destruct (process_step df mappings processed t) as [processed'|e]
      eqn:Hstep; [|done]. simpl in Hloop.
    apply (IH processed'); try done.
    + exact (process_step_loop_index df mappings df_wf _ _ _ Hidx Hstep).
    + exact (process_step_wf df mappings df_wf _ _ _ Hidx Hwf Hstep).
    + destruct Hcase as [[->|Hin]%elem_of_cons|Hcol].
      * right. eapply process_step_values; eauto.
      * by left.
      * right. eapply process_step_values; eauto.
Qed.

End projection.

(** X1: the cells of a mapped field are the cells of its source column, in
    the same order and unchanged. *)
Theorem process_data_values df mappings target_columns p target src :
  wf_frame df →
  process_data df mappings target_columns = Ok p →
  target ∈ target_columns →
  dict_get mappings target = Some src → src ≠ "" →
  ∃ vs, lookup_column src (df_data df) = Some vs
        ∧ lookup_column target (df_data p) = Some vs.
Proof.
  intros Hwf Hp Hin Hget Hne.
  destruct (process_loop_sources df mappings _ _ _ _ _ Hp Hin Hget Hne)
    as [vs Hvs].
  exists vs. split; [done |].
  apply (process_loop_values df mappings Hwf target_columns empty_frame p
           target src vs); try done.
  - by left.
  - constructor.
  - by left.
Qed.

Lemma process_data_values_witness :
  wf_frame sample_table
  ∧ process_data sample_table sample_mapping ["Phone"; "Email"]
    = Ok sample_projection
  ∧ "Email" ∈ ["Phone"; "Email"]
  ∧ dict_get sample_mapping "Email" = Some "E-mail Address"
  ∧ "E-mail Address" ≠ ""
  ∧ ∃ vs, lookup_column "E-mail Address" (df_data sample_table) = Some vs
          ∧ lookup_column "Email" (df_data sample_projection) = Some vs.
Proof.
  assert ("Email" ∈ ["Phone"; "Email"]) as Hin
    by (apply (bool_decide_unpack _); reflexivity).
  assert ("E-mail Address" ≠ "") as Hne by discriminate.
  split; [exact sample_table_wf |]. split; [reflexivity |].
  split; [exact Hin |]. split; [reflexivity |]. split; [exact Hne |].
  exact (process_data_values sample_table sample_mapping ["Phone"; "Email"]
           sample_projection "Email" "E-mail Address" sample_table_wf
           eq_refl Hin eq_refl Hne).
Defined.

(** X2: on a schema without repetition, the columns of the projection are
    the fields of the schema in schema order, whatever the columns of the
    source and the mapping are. *)
Theorem process_data_schema_order df mappings target_columns p :
  NoDup target_columns →
  process_data df mappings target_columns = Ok p →
  columns p = target_columns
  ∧ ∀ i target, target_columns !! i = Some target →
                ∃ cells, df_data p !! i = Some (target, cells).
Proof.
  intros Hnd Hp.
  pose proof (process_data_columns _ _ _ _ Hnd Hp) as Hcols.
  split; [done |]. intros i target Hi.
  rewrite <-Hcols in Hi. unfold columns in Hi.
  rewrite list_lookup_fmap in Hi.
  destruct (df_data p !! i) as [[k cells]|]; [|done].
  injection Hi as ->. by exists cells.
Qed.

Lemma process_data_schema_order_witness :
  NoDup ["Phone"; "Email"]
  ∧ process_data sample_table sample_mapping ["Phone"; "Email"]
    = Ok sample_projection
  ∧ columns sample_projection = ["Phone"; "Email"].
Proof.
  assert (NoDup ["Phone"; "Email"]) as Hnd
    by (apply (bool_decide_unpack _); reflexivity).
  split; [exact Hnd |]. split; [reflexivity |].
  exact (proj1 (process_data_schema_order sample_table sample_mapping
                  ["Phone"; "Email"] sample_projection Hnd eq_refl)).
Defined.

(** X3: the projection reads the mapping only at the fields of the schema:
    two mappings that agree on them give the same result, entries for other
    names are ignored. *)
Theorem process_data_ignores_other_fields df mappings mappings'
    target_columns :
  (∀ target, target ∈ target_columns →
             dict_get mappings target = dict_get mappings' target) →
  process_data df mappings target_columns
  = process_data df mappings' target_columns.
Proof.
  unfold process_data. generalize empty_frame.
  induction target_columns as [|t targets IH]; intros processed Hagree;
    simpl; [done |].
  assert (process_step df mappings processed t
          = process_step df mappings' processed t) as ->.
  { unfold process_step. rewrite (Hagree t); [done | by left]. }
  destruct (process_step df mappings' processed t); simpl; [|done].
  apply IH. intros target Hin. apply Hagree. by right.
Qed.

Lemma process_data_ignores_other_fields_witness :
  (∀ target, target ∈ ["Email"] →
             dict_get sample_mapping target
             = dict_get (<["Email" := Some "E-mail Address"]> ∅) target)
  ∧ process_data sample_table sample_mapping ["Email"]
    = process_data sample_table (<["Email" := Some "E-mail Address"]> ∅)
                   ["Email"].
Proof.
  assert (∀ target, target ∈ ["Email"] →
            dict_get sample_mapping target
            = dict_get (<["Email" := Some "E-mail Address"]> ∅) target)
    as Hagree.
  { intros target Hin. apply list_elem_of_singleton in Hin. subst target.
    reflexivity. }
  split; [exact Hagree |].
  exact (process_data_ignores_other_fields sample_table sample_mapping
           (<["Email" := Some "E-mail Address"]> ∅) ["Email"] Hagree).
Defined.

(** ** [verify_emails]: what the returned table holds *)

Lemma select_own_mask {A} (f : A → bool) (l : list A) :
  Forall (λ x, f x = true) (select (map f l) l).
Proof.
  induction l as [|x l IH]; simpl; [constructor |].
  destruct (f x) eqn:Hx; [by constructor | done].
Qed.

Lemma status_loop_all_raise (net : Network) api_key n emails :
  (∀ i email, ∃ e, net i api_key email = Raise e) →
  status_loop net api_key n emails = replicate (length emails) (PStr "error").
Proof.
  intros Hnet. revert n. induction emails as [|email emails IH]; intros n;
    simpl; [done |].
  rewrite IH, check_email_cases. by destruct (Hnet n email) as [e ->].
Qed.

Lemma select_none {A} (mask : list bool) (l : list A) :
  Forall (λ b, b = false) mask → select mask l = [].
Proof.
  intros Hmask. revert l. induction Hmask as [|b mask -> _ IH]; intros [|x l];
    simpl; auto.
Qed.

(** X4: in the table [verify_emails] returns, the column [Email Status] has
    one cell per row and every cell is the string [valid]. *)
Theorem verify_emails_status_valid net h df api_key frame :
  h !! df = Some frame → wf_frame frame → "Email" ∈ columns frame →
  ∃ h' out res cells,
    verify_emails net h df api_key = Ok (h', out)
    ∧ h' !! out = Some res
    ∧ lookup_column "Email Status" (df_data res) = Some cells
    ∧ length cells = nrows res
    ∧ Forall (λ v, v = PStr "valid") cells.
Proof.
  intros Hdf Hwf Hcol.
  rewrite (verify_emails_present net h df api_key frame) by done.
  eexists _, _, _, _. split; [done |]. split; [apply lookup_insert_eq |].
  split_and!.
  - rewrite lookup_column_boolean_mask. unfold annotated. simpl.
    by rewrite lookup_set_column_eq.
  - unfold nrows, boolean_mask. simpl. apply length_select_eq.
    by apply length_outcomes.
  - unfold valid_mask. eapply Forall_impl; [apply select_own_mask |].
    intros v Hv. by apply eq_str_true.
Qed.

Lemma verify_emails_status_valid_witness :
  sample_heap !! 1%positive = Some (sample_heap !!! 1%positive)
  ∧ wf_frame (sample_heap !!! 1%positive)
  ∧ "Email" ∈ columns (sample_heap !!! 1%positive)
  ∧ ∃ h' out res,
      verify_emails sample_network sample_heap 1 "key" = Ok (h', out)
      ∧ h' !! out = Some res
      ∧ lookup_column "Email Status" (df_data res) = Some [PStr "valid"].
Proof.
  assert ("Email" ∈ columns (sample_heap !!! 1%positive)) as Hcol.
  { apply (bool_decide_unpack _). reflexivity. }
  assert (wf_frame (sample_heap !!! 1%positive)) as Hwf
    by (repeat constructor).
  split; [reflexivity |]. split; [exact Hwf |]. split; [exact Hcol |].
  destruct (verify_emails_status_valid sample_network sample_heap 1 "key"
              _ eq_refl Hwf Hcol)
    as (h' & out & res & cells & Hrun & Hres & Hcells & _ & _).
  exists h', out, res. split; [exact Hrun |]. split; [exact Hres |].
  injection Hrun as <- <-. injection Hres as <-. reflexivity.
Defined.

(** X5: every column of the returned table other than [Email Status] holds
    the cells of the input column at the rows whose outcome is [valid], in
    the order of the input: filtering copies the values it keeps. *)
Theorem verify_emails_keeps_values net h df api_key frame c cells :
  h !! df = Some frame → wf_frame frame → "Email" ∈ columns frame →
  c ≠ "Email Status" → lookup_column c (df_data frame) = Some cells →
  ∃ h' out res,
    verify_emails net h df api_key = Ok (h', out)
    ∧ h' !! out = Some res
    ∧ lookup_column c (df_data res)
      = Some (select (valid_mask net api_key frame) cells).
Proof.
  intros Hdf Hwf Hcol Hc Hcells.
  rewrite (verify_emails_present net h df api_key frame) by done.
  eexists _, _, _. split; [done |]. split; [apply lookup_insert_eq |].
  rewrite lookup_column_boolean_mask. unfold annotated. simpl.
  rewrite lookup_set_column_ne by done. by rewrite Hcells.
Qed.

Lemma verify_emails_keeps_values_witness :
  sample_heap !! 1%positive = Some (sample_heap !!! 1%positive)
  ∧ wf_frame (sample_heap !!! 1%positive)
  ∧ "Email" ∈ columns (sample_heap !!! 1%positive)
  ∧ "Name" ≠ "Email Status"
  ∧ lookup_column "Name" (df_data (sample_heap !!! 1%positive))
    = Some [PStr "Ann"; PStr "Bob"; PStr "Cy"]
  ∧ ∃ h' out res,
      verify_emails sample_network sample_heap 1 "key" = Ok (h', out)
      ∧ h' !! out = Some res
      ∧ lookup_column "Name" (df_data res) = Some [PStr "Ann"].
Proof.
  assert ("Email" ∈ columns (sample_heap !!! 1%positive)) as Hcol.
  { apply (bool_decide_unpack _). reflexivity. }
  assert (wf_frame (sample_heap !!! 1%positive)) as Hwf
    by (repeat constructor).
  assert ("Name" ≠ "Email Status") as Hne by discriminate.
  split; [reflexivity |]. split; [exact Hwf |]. split; [exact Hcol |].
  split; [exact Hne |]. split; [reflexivity |].
  exact (verify_emails_keeps_values sample_network sample_heap 1 "key" _
           "Name" _ eq_refl Hwf Hcol Hne eq_refl).
Defined.

(** X6: when every request raises (the service cannot be reached), the
    function still returns: the caller's table gets [error] in every cell of
    [Email Status], and the table returned has the columns and no row. *)
Theorem verify_emails_service_down net h df api_key frame :
  h !! df = Some frame → wf_frame frame → "Email" ∈ columns frame →
  (∀ i email, ∃ e, net i api_key email = Raise e) →
  ∃ h' out frame' res,
    verify_emails net h df api_key = Ok (h', out)
    ∧ h' !! df = Some frame' ∧ h' !! out = Some res
    ∧ lookup_column "Email Status" (df_data frame')
      = Some (replicate (nrows frame) (PStr "error"))
    ∧ nrows res = 0
    ∧ columns res = columns frame'.
Proof.
  intros Hdf Hwf Hcol Hnet.
  rewrite (verify_emails_present net h df api_key frame) by done.
  set (h' := <[df := annotated net api_key frame]> h).
  assert (fresh (dom h') ≠ df) as Hout.
  { intros Heq. apply (is_fresh (dom h')). rewrite Heq.
    apply elem_of_dom. unfold h'. rewrite lookup_insert_eq. by eexists. }
  assert (outcomes net api_key frame
          = replicate (nrows frame) (PStr "error")) as Hall.
  { pose proof (length_outcomes net api_key frame Hwf Hcol) as Hlen.
    unfold outcomes in *. rewrite status_loop_all_raise in * by done.
    rewrite length_replicate in Hlen. by rewrite Hlen. }
  eexists _, _, (annotated net api_key frame), _.
  split; [done |].
  split; [rewrite lookup_insert_ne by done; apply lookup_insert_eq |].
  split; [apply lookup_insert_eq |]. split_and!.
  - unfold annotated. simpl. by rewrite lookup_set_column_eq, Hall.
  - unfold nrows, boolean_mask, valid_mask. simpl. rewrite Hall.
    rewrite select_none; [done |].
    apply Forall_map, Forall_replicate. done.
  - apply columns_boolean_mask.
Qed.

Lemma verify_emails_service_down_witness :
  sample_heap !! 1%positive = Some (sample_heap !!! 1%positive)
  ∧ wf_frame (sample_heap !!! 1%positive)
  ∧ "Email" ∈ columns (sample_heap !!! 1%positive)
  ∧ (∀ (i : nat) (email : pyval),
       ∃ e, (λ _ _ _, Raise (RequestException "Connection refused"))
              i "key" email = (Raise e : result Response))
  ∧ ∃ h' out res,
      verify_emails (λ _ _ _, Raise (RequestException "Connection refused"))
                    sample_heap 1 "key" = Ok (h', out)
      ∧ h' !! out = Some res ∧ nrows res = 0.
Proof.
  assert ("Email" ∈ columns (sample_heap !!! 1%positive)) as Hcol.
  { apply (bool_decide_unpack _). reflexivity. }
  assert (wf_frame (sample_heap !!! 1%positive)) as Hwf
    by (repeat constructor).
  assert (∀ (i : nat) (email : pyval),
            ∃ e, (λ _ _ _, Raise (RequestException "Connection refused"))
                   i "key" email = (Raise e : result Response)) as Hnet
    by (intros i email; eexists; reflexivity).
  split; [reflexivity |]. split; [exact Hwf |]. split; [exact Hcol |].
  split; [exact Hnet |].
  destruct (verify_emails_service_down
              (λ _ _ _, Raise (RequestException "Connection refused"))
              sample_heap 1 "key" _ eq_refl Hwf Hcol Hnet)
    as (h' & out & frame' & res & Hrun & _ & Hres & _ & Hrows & _).
  by exists h', out, res.
Defined.

(** ** The mapping interface: what a script run leaves in the mapping *)

Lemma names_column_insert df (m : Mappings) t v target :
  names_column df (<[t := v]> m) target
  ↔ (t = target ∧ (v = None ∨ ∃ c, v = Some c ∧ c ∈ columns df ∧ c ≠ IGNORE))
    ∨ (t ≠ target ∧ names_column df m target).
Proof.
  unfold names_column. rewrite dict_get_insert.
  case_decide; [|by intuition]. split; [by left | by intros [[_ ?]|[? _]]].
Qed.

(** The options of a select box, the sentinel apart, are columns of the
    table that are free or the current source of the target. *)
Lemma elem_of_source_options (cols used : list string) current c :
  c ∈ merge_sort String.le
        (filter (λ c, c ∉ used ∨ Some c = current) cols)
  ↔ (c ∉ used ∨ Some c = current) ∧ c ∈ cols.
Proof. by rewrite merge_sort_Permutation, list_elem_of_filter. Qed.

Lemma mapping_rows_names_column u df targets (m : Mappings) used target :
  (∀ key, click u key = false) →
  target ∈ targets ∨ names_column df m target →
  names_column df (mapping_rows u (columns df) targets m used) target.
Proof.
  intros Hclick. revert m used.
  induction targets as [|t targets IH]; intros m used Hcase; simpl.
  { destruct Hcase as [[]%elem_of_nil|]; done. }
  set (options := merge_sort String.le _).
  set (selected := selectbox _ _ _ _).
  assert (selected ∈ IGNORE :: options) as Hsel by apply selectbox_elem_of.
  assert (∀ v used',
            (v = None ∨ ∃ c, v = Some c ∧ c ∈ columns df ∧ c ≠ IGNORE) →
            names_column df
              (if truthy (dict_get (<[t := v]> m) t)
                  && button u ("clear_" +:+ t)
               then <[t := None]> (<[t := v]> m)
               else mapping_rows u (columns df) targets (<[t := v]> m) used')
              target) as Hnext.
  { intros v used' Hv. unfold button. rewrite Hclick, andb_false_r.
    apply IH. destruct (decide (t = target)) as [->|Hne].
    - right. apply names_column_insert. by left.
    - destruct Hcase as [[->|Hin]%elem_of_cons|Hm]; [done | by left |].
      right. apply names_column_insert. by right. }
  destruct (decide (selected ≠ IGNORE)) as [Hne|_].
  - apply Hnext. right. exists selected. split; [done |].
    apply elem_of_cons in Hsel as [|Hsel]; [done |].
    apply elem_of_source_options in Hsel as [_ Hcol]. done.
  - apply Hnext. by left.
Qed.

(** X7: after a script run in which no clear button is clicked, the entry
    of every field of the schema is unset or names a column of the loaded
    table; the sentinel is never stored. *)
Theorem render_column_mapping_names_columns u df target_columns
    (mappings : Mappings) target :
  (∀ key, click u key = false) →
  target ∈ target_columns →
  names_column df (render_column_mapping u df target_columns mappings) target.
Proof.
  intros Hclick Hin. apply mapping_rows_names_column; [done | by left].
Qed.

Lemma render_column_mapping_names_columns_witness :
  (∀ key, click picking_user key = false)
  ∧ "Email" ∈ ["Email"; "Name"]
  ∧ names_column sample_table
      (render_column_mapping picking_user sample_table ["Email"; "Name"] ∅)
      "Email".
Proof.
  assert (∀ key, click picking_user key = false) as Hclick
    by (intros key; reflexivity).
  assert ("Email" ∈ ["Email"; "Name"]) as Hin
    by (apply (bool_decide_unpack _); reflexivity).
  split; [exact Hclick |]. split; [exact Hin |].
  exact (render_column_mapping_names_columns picking_user sample_table
           ["Email"; "Name"] ∅ "Email" Hclick Hin).
Defined.

(** X8: the projection of the table on the schema, with the mapping such a
    script run leaves, returns: [df[source]] finds every source the
    interface stored. *)
Theorem render_then_process_data u df target_columns (mappings : Mappings) :
  wf_frame df →
  (∀ key, click u key = false) →
  ∃ p, process_data df (render_column_mapping u df target_columns mappings)
                    target_columns = Ok p.
Proof.
  intros Hwf Hclick. unfold process_data.
  apply (process_loop_ok df _ Hwf); [by left |].
  intros target src Hin Hget Hne.
  destruct (mapping_rows_names_column u df target_columns mappings
              (initial_used_sources mappings) target Hclick (or_introl Hin))
    as [Hnone|(c & Hc & Hcol & _)].
  - unfold render_column_mapping in Hget. congruence.
  - unfold render_column_mapping in Hget. congruence.
Qed.

Lemma render_then_process_data_witness :
  wf_frame sample_table
  ∧ (∀ key, click picking_user key = false)
  ∧ ∃ p, process_data sample_table
           (render_column_mapping picking_user sample_table
              ["Email"; "Name"] duplicate_template)
           ["Email"; "Name"] = Ok p.
Proof.
  assert (∀ key, click picking_user key = false) as Hclick
    by (intros key; reflexivity).
  split; [exact sample_table_wf |]. split; [exact Hclick |].
  exact (render_then_process_data picking_user sample_table ["Email"; "Name"]
           duplicate_template sample_table_wf Hclick).
Defined.








(** ** The session: templates and the mapping share their objects *)

Lemma unique_sources_default (objs : gmap loc Mappings) l :
  (∀ l m, objs !! l = Some m → unique_sources m) →
  unique_sources (objs !!! l).
Proof.
  intros Hall. rewrite lookup_total_alt.
  destruct (objs !! l) as [m|] eqn:Hl; simpl; [by eapply Hall |].
  apply unique_sources_empty.
Qed.

(** X10: when no dict object of the session binds a source column twice,
    none does after any sequence of script runs and template loads, and the
    mapping the session works on is one of them. *)
Theorem session_actions_unique df target_columns s acts :
  (∀ l m, objects s !! l = Some m → unique_sources m) →
  (∀ l m, objects (session_actions df target_columns s acts) !! l = Some m →
          unique_sources m)
  ∧ unique_sources
      (active_mapping (session_actions df target_columns s acts)).
Proof.
  intros Hall.
  assert (∀ l m, objects (session_actions df target_columns s acts) !! l
                 = Some m → unique_sources m) as Hall'.
  { unfold session_actions. revert s Hall.
    induction acts as [|a acts IH]; intros s Hall; simpl; [done |].
    apply IH. destruct a as [u|tpl_name]; simpl.
    - intros l m. destruct (decide (session_mappings s = l)) as [<-|Hne].
      + rewrite lookup_insert_eq. intros [= <-].
        apply render_column_mapping_unique.
        by apply unique_sources_default.
      + rewrite lookup_insert_ne by done. apply Hall.
    - by destruct (session_templates s !! tpl_name). }
  split; [done |]. by apply unique_sources_default.
Qed.

Lemma session_actions_unique_witness :
  (∀ l m, objects sample_listing !! l = Some m → unique_sources m)
  ∧ unique_sources
      (active_mapping
         (session_actions sample_table ["Email"; "Name"] sample_listing
            [LoadTemplate "crm"; Render picking_user])).
Proof.
  assert (∀ l m, objects sample_listing !! l = Some m → unique_sources m)
    as Hall.
  { intros l m. unfold sample_listing. simpl.
    destruct (decide (1%positive = l)) as [<-|Hne].
    - rewrite lookup_insert_eq. intros [= <-]. exact unique_sources_empty.
    - rewrite lookup_insert_ne by done.
      intros [_ <-]%lookup_singleton_Some. exact sample_mapping_unique. }
  split; [exact Hall |].
  exact (proj2 (session_actions_unique sample_table ["Email"; "Name"]
                  sample_listing [LoadTemplate "crm"; Render picking_user]
                  Hall)).
Defined.

(** X11: loading a template makes the session work on the template object
    itself.  A script run of the mapping interface after the load therefore
    rewrites the template as the session lists it: the listed template is
    the edited mapping, not the mapping that was stored. *)
Theorem load_then_render_edits_template df target_columns s tpl_name l
    tpl_data u :
  session_templates s !! tpl_name = Some l →
  objects s !! l = Some tpl_data →
  let s' := session_actions df target_columns s
              [LoadTemplate tpl_name; Render u] in
  listed_template s' tpl_name
  = Some (render_column_mapping u df target_columns tpl_data)
  ∧ active_mapping s' = render_column_mapping u df target_columns tpl_data.
Proof.
  intros Hname Hobj. unfold session_actions, listed_template, active_mapping.
  simpl. rewrite Hname. simpl. rewrite Hname. simpl.
  rewrite lookup_insert_eq, lookup_total_insert_eq.
  unfold active_mapping. simpl.
  by rewrite (lookup_total_correct _ _ _ Hobj).
Qed.

Lemma load_then_render_edits_template_witness :
  session_templates sample_listing !! "crm" = Some 2%positive
  ∧ objects sample_listing !! 2%positive = Some sample_mapping
  ∧ listed_template
      (session_actions sample_table ["Email"; "Name"] sample_listing
         [LoadTemplate "crm";
          Render (mkUser (λ _, None)
                         (λ key, bool_decide (key = "clear_Name")))])
      "crm"
    = Some (<["Name" := None]>
              (<["Name" := Some "Full Name"]>
                 (<["Email" := Some "E-mail Address"]> sample_mapping))).
Proof.
  split; [reflexivity |]. split; [reflexivity |].
  destruct (load_then_render_edits_template sample_table ["Email"; "Name"]
              sample_listing "crm" 2%positive sample_mapping
              (mkUser (λ _, None) (λ key, bool_decide (key = "clear_Name")))
              eq_refl eq_refl) as [Hlisted _].
  rewrite Hlisted. reflexivity.
Defined.

(** ** The start action and the name of the export *)

(** X12: the start action changes the session only when it shows no error.
    When an error is shown the session is as before; when none is shown the
    mapping is as before, verification was not asked for, and the table
    stored with the derived file name is the projection. *)
Theorem start_processing_outcome df TARGET_COLUMNS api_key new_filename
    verify st st' shown :
  start_processing df TARGET_COLUMNS api_key new_filename verify st
  = (st', shown) →
  match shown with
  | Some text => st' = st
  | None =>
      ss_mappings st' = ss_mappings st
      ∧ (api_key = "" ∨ verify = false)
      ∧ ∃ p, process_data df (ss_mappings st) TARGET_COLUMNS = Ok p
             ∧ ss_processed_data st'
               = Some (p, clean_filename new_filename)
  end.
Proof.
  unfold start_processing.
  destruct (process_data df (ss_mappings st) TARGET_COLUMNS) as [p|e];
    simpl; [|by intros [= <- <-]].
  destruct (decide (api_key = "")) as [->|Hkey].
  - simpl. intros [= <- <-]. simpl. split_and!; [done | by left |].
    by exists p.
  - rewrite bool_decide_eq_false_2 by done. simpl.
    destruct verify; simpl; intros [= <- <-]; [done |].
    simpl. split_and!; [done | by right |]. by exists p.
Qed.

Lemma start_processing_outcome_witness :
  start_processing sample_table ["Phone"; "Email"] "" "leads.csv" true
                   sample_session
  = (mkSession sample_mapping (Some (sample_projection, "leads_clean.csv")),
     None)
  ∧ ss_processed_data
      (mkSession sample_mapping (Some (sample_projection, "leads_clean.csv")))
    = Some (sample_projection, "leads_clean.csv").
Proof.
  split; [reflexivity |].
  destruct (start_processing_outcome sample_table ["Phone"; "Email"] ""
              "leads.csv" true sample_session _ None eq_refl)
    as (_ & _ & p & Hp & Hdata).
  injection Hp as <-. exact Hdata.
Defined.

Lemma before_last_dot_no_dot name :
  contains_dot name = false → before_last_dot name = None.
Proof.
  induction name as [|c name IH]; simpl; [done |].
  intros [Hc Hname]%orb_false_iff. rewrite IH by done.
  apply bool_decide_eq_false in Hc. by rewrite decide_False.
Qed.

Lemma before_last_dot_extension base ext :
  contains_dot ext = false →
  before_last_dot (base +:+ "." +:+ ext) = Some base.
Proof.
  intros Hext. induction base as [|c base IH]; simpl.
  - by rewrite before_last_dot_no_dot.
  - simpl in IH. by rewrite IH.
Qed.

(** X13: the name of the export replaces the extension of the file name,
    what follows its last dot, by [_clean.csv]; a name without a dot gets
    [_clean.csv] appended. *)
Theorem clean_filename_extension base ext :
  contains_dot ext = false →
  clean_filename (base +:+ "." +:+ ext) = base +:+ "_clean.csv"
  ∧ clean_filename ext = ext +:+ "_clean.csv".
Proof.
  intros Hext. unfold clean_filename.
  by rewrite before_last_dot_extension, before_last_dot_no_dot.
Qed.

Lemma clean_filename_extension_witness :
  contains_dot "csv" = false
  ∧ clean_filename "leads.2024.csv" = "leads.2024_clean.csv"
  ∧ clean_filename "csv" = "csv_clean.csv".
Proof.
  split; [reflexivity |].
  exact (clean_filename_extension "leads.2024" "csv" eq_refl).
Defined.

(** ** The loader on a decoder and a parser *)


Lemma load_byte_order_mark_witness :
  (∀ raw', [Byte.x61; Byte.x3b; Byte.x62] ≠ BOM ++ raw')
  ∧ load_and_validate_data ascii_decode sample_parser
      (BOM ++ [Byte.x61; Byte.x3b; Byte.x62])
    = Ok sample_table.
Proof.
  assert (∀ raw', [Byte.x61; Byte.x3b; Byte.x62] ≠ BOM ++ raw') as Hraw
    by (intros raw'; discriminate).
  split; [exact Hraw |].
  rewrite (load_byte_order_mark ascii_decode sample_parser _ Hraw).
  reflexivity.
Defined.

(** ** Templates on disk *)

(** The loop of [load_templates] over files that can all be read: every file
    is entered under its stem. *)
Lemma load_loop_ok (l : list (string * template_file))
    (templates : gmap string Mappings) :
  Forall (λ file, ∃ tpl_data, file.2 = JsonFile tpl_data) l →
  NoDup l.*1 →
  ∃ r, for_each (λ (templates : gmap string Mappings) file,
                   match file.2 with
                   | JsonFile tpl_data => Ok (<[file.1 := tpl_data]> templates)
                   | BadFile e => Raise e
                   end) l templates = Ok r
       ∧ ∀ stem, r !! stem
                 = match (list_to_map l : Directory) !! stem with
                   | Some (JsonFile tpl_data) => Some tpl_data
                   | _ => templates !! stem
                   end.
Proof.
  intros Hall. revert templates.
  induction Hall as [|[stem0 file0] l [tpl_data Hfile] Hall IH];
    intros templates Hnd; simpl in *.
  - exists templates. split; [done |]. intros stem. by rewrite lookup_empty.
  - subst file0. simpl. apply NoDup_cons in Hnd as [Hnew Hnd].
    destruct (IH (<[stem0 := tpl_data]> templates) Hnd) as (r & -> & Hr).
    exists r. split; [done |]. intros stem. rewrite Hr.
    destruct (decide (stem0 = stem)) as [<-|Hne].
    + rewrite lookup_insert_eq.
      rewrite (not_elem_of_list_to_map_1 l stem0 Hnew).
      by rewrite lookup_insert_eq.
    + by rewrite !lookup_insert_ne.
Qed.

Lemma load_loop_raise (l : list (string * template_file))
    (templates : gmap string Mappings) :
  Exists (λ file, ∃ e, file.2 = BadFile e) l →
  ∃ stem e, (stem, BadFile e) ∈ l
            ∧ for_each (λ (templates : gmap string Mappings) file,
                          match file.2 with
                          | JsonFile tpl_data =>
                              Ok (<[file.1 := tpl_data]> templates)
                          | BadFile e => Raise e
                          end) l templates = Raise e.
Proof.
  intros Hex. revert templates.
  induction l as [|[stem0 file0] l IH]; intros templates;
    [by apply Exists_nil in Hex |].
  simpl. destruct file0 as [tpl_data|e0]; simpl.
  - apply Exists_cons in Hex as [[e [=]]|Hex].
    destruct (IH Hex (<[stem0 := tpl_data]> templates)) as (stem & e & Hin & ->).
    exists stem, e. split; [by right | done].
  - exists stem0, e0. split; [by left | done].
Qed.

(** X14: when every template file can be read, [load_templates] shows
    nothing and returns exactly the templates of the directory, each under
    the stem of its file. *)
Theorem load_templates_all_read (dir : Directory) :
  (∀ stem e, dir !! stem ≠ Some (BadFile e)) →
  ∃ templates,
    load_templates dir = (templates, [])
    ∧ ∀ stem tpl_data,
        templates !! stem = Some tpl_data
        ↔ dir !! stem = Some (JsonFile tpl_data).
Proof.
  intros Hgood. unfold load_templates.
  destruct (load_loop_ok (map_to_list dir) ∅) as (r & -> & Hr).
  - apply Forall_forall. intros [stem file] Hin%elem_of_map_to_list. simpl.
    destruct file as [tpl_data|e]; [by eexists | by destruct (Hgood stem e)].
  - apply NoDup_fst_map_to_list.
  - exists r. split; [done |]. intros stem tpl_data.
    rewrite Hr, list_to_map_to_list, lookup_empty.
    destruct (dir !! stem) as [[tpl|e]|] eqn:Hstem; try done.
    split; congruence.
Qed.

Lemma load_templates_all_read_witness :
  (∀ stem e,
     ({[ "crm" := JsonFile sample_mapping ]} : Directory) !! stem
     ≠ Some (BadFile e))
  ∧ ∃ templates,
      load_templates {[ "crm" := JsonFile sample_mapping ]} = (templates, [])
      ∧ (templates !! "crm" = Some sample_mapping
         ↔ ({[ "crm" := JsonFile sample_mapping ]} : Directory) !! "crm"
           = Some (JsonFile sample_mapping)).
Proof.
  assert (∀ stem e,
            ({[ "crm" := JsonFile sample_mapping ]} : Directory) !! stem
            ≠ Some (BadFile e)) as Hgood.
  { intros stem e [_ [=]]%lookup_singleton_Some. }
  split; [exact Hgood |].
  destruct (load_templates_all_read _ Hgood) as (templates & Hload & Hiff).
  exists templates. split; [exact Hload |]. exact (Hiff "crm" sample_mapping).
Defined.

(** X15: one template file that cannot be read is enough for
    [load_templates] to return no template at all; it shows the error of
    such a file. *)
Theorem load_templates_bad_file (dir : Directory) stem e :
  dir !! stem = Some (BadFile e) →
  ∃ stem' e',
    dir !! stem' = Some (BadFile e')
    ∧ load_templates dir
      = (∅, [Error ("Template loading error: " +:+ str_exn e')]).
Proof.
  intros Hbad. unfold load_templates.
  destruct (load_loop_raise (map_to_list dir) ∅) as (stem' & e' & Hin & ->).
  - apply Exists_exists. exists (stem, BadFile e).
    split; [by apply elem_of_map_to_list | by eexists].
  - exists stem', e'. split; [by apply elem_of_map_to_list | done].
Qed.

Lemma load_templates_bad_file_witness :
  broken_directory !! "old" = Some (BadFile (JSONDecodeError "Expecting value"))
  ∧ ∃ e',
      load_templates broken_directory
      = (∅, [Error ("Template loading error: " +:+ str_exn e')]).
Proof.
  assert (broken_directory !! "old"
          = Some (BadFile (JSONDecodeError "Expecting value"))) as Hbad
    by reflexivity.
  split; [exact Hbad |].
  destruct (load_templates_bad_file broken_directory "old" _ Hbad)
    as (stem' & e' & _ & Hload).
  by exists e'.
Defined.

Section templates.
Variables (word_char space_char : string → bool).


Lemma sublist_reverse_2 {A} (l1 l2 : list A) :
  l1 `sublist_of` l2 → reverse l1 `sublist_of` reverse l2.
Proof.
  induction 1 as [|x l1 l2 _ IH|x l1 l2 _ IH]; [done | |];
    rewrite ?reverse_cons.
  - by apply sublist_app.
  - by apply sublist_inserts_r.
Qed.

Lemma lstrip_sublist cs : lstrip space_char cs `sublist_of` cs.
Proof.
  induction cs as [|c cs IH]; simpl; [done |].
  destruct (space_char c); [by apply sublist_cons | done].
Qed.

Lemma strip_sublist cs : strip space_char cs `sublist_of` cs.
Proof.
  unfold strip. etrans; [|apply lstrip_sublist].
  rewrite <-(reverse_involutive (lstrip space_char cs)) at 2.
  apply sublist_reverse_2, lstrip_sublist.
Qed.

(** X16: the name under which a template is saved is made of at most 50
    characters of the name given, in their order, each of them a word
    character or a hyphen. *)
Theorem sanitize_shape name :
  ∃ cs, sanitize word_char space_char name = String.concat "" cs
        ∧ length cs ≤ 50
        ∧ cs `sublist_of` chars name
        ∧ Forall (λ c, word_char c = true ∨ c = "-") cs.
Proof.
  eexists. split; [done |]. split_and!.
  - rewrite length_take. lia.
  - etrans; [apply sublist_take |]. etrans; [apply sublist_filter |].
    apply strip_sublist.
  - apply Forall_take. apply Forall_forall.
    intros c [Hkept _]%list_elem_of_filter. unfold kept_char in Hkept.
    apply orb_true_iff in Hkept as [|Hc%bool_decide_eq_true]; auto.
Qed.

(** X17: [save_template] changes the directory only when it reports
    success.  It then adds one file, under the sanitized name, which was
    free, holding the mapping; otherwise the directory is as before and one
    of three errors is shown.  A file that exists is never overwritten. *)
Theorem save_template_outcome name mappings (dir dir' : Directory) shown :
  save_template word_char space_char name mappings dir = (dir', shown) →
  (shown = [ToastSaved (sanitize word_char space_char name)]
   ∧ name ≠ "" ∧ sanitize word_char space_char name ≠ ""
   ∧ dir !! sanitize word_char space_char name = None
   ∧ dir' = <[sanitize word_char space_char name := JsonFile mappings]> dir)
  ∨ (dir' = dir
     ∧ ((name = ""
         ∧ shown = [Error "Save failed: Template name cannot be empty"])
        ∨ (name ≠ "" ∧ sanitize word_char space_char name = ""
           ∧ shown = [Error "Save failed: Invalid template name"])
        ∨ (is_Some (dir !! sanitize word_char space_char name)
           ∧ shown = [Error "Save failed: Template name already exists"]))).
Proof.
  unfold save_template.
  destruct (decide (name = "")) as [->|Hname].
  { intros [= <- <-]. right. split; [done |]. by left. }
  destruct (decide (sanitize word_char space_char name = "")) as [Hvalid|Hvalid].
  { intros [= <- <-]. right. split; [done |]. right. by left. }
  destruct (decide (is_Some (dir !! sanitize word_char space_char name))) as [Hex|Hnew].
  { intros [= <- <-]. right. split; [done |]. right. by right. }
  intros [= <- <-]. left. split_and!; try done.
  by apply eq_None_not_Some.
Qed.

Lemma save_template_new name mappings (dir : Directory) :
  name ≠ "" → sanitize word_char space_char name ≠ "" →
  dir !! sanitize word_char space_char name = None →
  save_template word_char space_char name mappings dir
  = (<[sanitize word_char space_char name := JsonFile mappings]> dir,
     [ToastSaved (sanitize word_char space_char name)]).
Proof.
  intros Hname Hvalid Hnew. unfold save_template.
  rewrite decide_False by done. rewrite decide_False by done.
  rewrite decide_False; [done |]. rewrite Hnew. by intros [? ?].
Qed.


(** X19: deleting a template that was just saved gives back the directory
    as it was before the save. *)
Theorem save_then_delete name mappings (dir : Directory) :
  name ≠ "" → sanitize word_char space_char name ≠ "" →
  dir !! sanitize word_char space_char name = None →
  delete_template (sanitize word_char space_char name) (save_template word_char space_char name mappings dir).1
  = (dir, [ToastDeleted (sanitize word_char space_char name)]).
Proof.
  intros Hname Hvalid Hnew.
  rewrite save_template_new by done. unfold delete_template. simpl.
  rewrite decide_True by (rewrite lookup_insert_eq; by eexists).
  by rewrite delete_insert_id.
Qed.

End templates.

(** X20: deleting a name that has no file changes nothing and shows
    nothing; deleting a template removes its file and no other. *)
Theorem delete_template_lookup name (dir : Directory) stem :
  (delete_template name dir).1 !! stem
  = (if decide (stem = name) then None else dir !! stem)
  ∧ (delete_template name dir).2
    = (if decide (is_Some (dir !! name)) then [ToastDeleted name] else []).
Proof.
  unfold delete_template.
  destruct (decide (is_Some (dir !! name))) as [Hex|Hno]; simpl.
  - split; [|done]. case_decide as Hs; subst.
    + apply lookup_delete_eq.
    + by apply lookup_delete_ne.
  - split; [|done]. case_decide as Hs; subst; [|done].
    by apply eq_None_not_Some.
Qed.

Lemma save_template_outcome_witness :
  save_template ascii_word ascii_space "My Template!!" sample_mapping
                taken_directory
  = (taken_directory, [Error "Save failed: Template name already exists"])
  ∧ is_Some (taken_directory
               !! sanitize ascii_word ascii_space "My Template!!").
Proof.
  assert (save_template ascii_word ascii_space "My Template!!" sample_mapping
                        taken_directory
          = (taken_directory,
             [Error "Save failed: Template name already exists"])) as Hrun
    by reflexivity.
  split; [exact Hrun |].
  destruct (save_template_outcome ascii_word ascii_space "My Template!!"
              sample_mapping taken_directory _ _ Hrun)
    as [(Hshown & _)|(_ & [(Hname & _)|[(_ & Hvalid & _)|(Hex & _)]])].
  - discriminate Hshown.
  - discriminate Hname.
  - discriminate Hvalid.
  - exact Hex.
Defined.


Lemma save_then_delete_witness :
  "My Template!!" ≠ ""
  ∧ sanitize ascii_word ascii_space "My Template!!" ≠ ""
  ∧ broken_directory !! sanitize ascii_word ascii_space "My Template!!" = None
  ∧ delete_template "MyTemplate"
      (save_template ascii_word ascii_space "My Template!!" sample_mapping
                     broken_directory).1
    = (broken_directory, [ToastDeleted "MyTemplate"]).
Proof.
  assert ("My Template!!" ≠ "") as Hname by discriminate.
  assert (sanitize ascii_word ascii_space "My Template!!" ≠ "") as Hvalid
    by discriminate.
  assert (broken_directory
            !! sanitize ascii_word ascii_space "My Template!!" = None) as Hnew
    by reflexivity.
  split; [exact Hname |]. split; [exact Hvalid |]. split; [exact Hnew |].
  exact (save_then_delete ascii_word ascii_space "My Template!!"
           sample_mapping broken_directory Hname Hvalid Hnew).
Defined.
